(** * vantage: the prompt coordinator (lib/ui.js), the execution queue and
      the command registry

    The prompt coordinator is embedded from [lib/ui.js], function by
    function.  The [ui] object is a record of the fields the module
    mutates; every call the module issues across its boundary
    ([console.log], the methods of inquirer's prompt object, the attached
    shell's [_prompt], [inquirer.prompt]) is appended to a trace, in
    program order.  JavaScript's [throw] and [try]/[catch] are an error
    monad over that state.

    What the module calls but does not define is a parameter of the
    development: [inquirer.prompt], the attached shell's [_prompt] and
    [VantageUtil.fixArgsForApply].  The first two are given as arbitrary
    transformers of the [ui] record which may also throw.  The methods of
    the prompt object ([clean], [render], [write], [done], the cursor
    cache) belong to the line-editing engine: they are recorded as calls,
    and the answer callback that [done] sets off runs in a later turn of
    the event loop ([prompt_callback]).  A JavaScript string is held
    as its UTF-8 text: [js_length] counts its UTF-16 code units, as
    [.length] does, and [String.prototype.trim], whose white space is the
    engine's, is one more parameter.

    The execution queue and the command registry live in lib/vantage.js
    and lib/command.js; they are modelled from their description. *)

From Stdlib Require Import Ascii Lia.
From stdpp Require Import base option list strings.

(** ** JavaScript values *)

Inductive Exn : Type :=
  | JsError (msg : string)
  | JsTypeError (msg : string)
  | JsExternal (code : nat).

(** The values that flow through [log]: what a caller passes, what a pipe
    function returns.  [VArgs] is an [arguments] object. *)
#[warnings="-register-all"]
Inductive JSVal : Type :=
  | VUndefined
  | VNull
  | VBool (b : bool)
  | VNum (z : Z)
  | VStr (s : string)
  | VArr (elems : list JSVal)
  | VArgs (elems : list JSVal)
  | VErr (e : Exn).

(** ToBoolean. *)
Definition js_truthy (v : JSVal) : bool :=
  match v with
  | VUndefined | VNull => false
  | VBool b => b
  | VNum z => negb (Z.eqb z 0)
  | VStr s => negb (String.eqb s "")
  | VArr _ | VArgs _ | VErr _ => true
  end.

(** [v === ""] *)
Definition is_empty_str (v : JSVal) : bool :=
  match v with
  | VStr s => String.eqb s ""
  | _ => false
  end.

(** ** Strings *)

(** The UTF-16 code units that the character starting at a byte of UTF-8
    text takes: none for a continuation byte, two for the lead byte of a
    four-byte sequence (a surrogate pair), one otherwise. *)
Definition utf16_units (c : ascii) : nat :=
  let n := nat_of_ascii c in
  if n <? 128 then 1
  else if n <? 192 then 0
  else if n <? 240 then 1
  else 2.

(** [s.length] *)
Fixpoint js_length (s : string) : nat :=
  match s with
  | EmptyString => 0
  | String c r => utf16_units c + js_length r
  end.

(** A [trim] to run the code with on ASCII text, where the white space
    of [String.prototype.trim] is tab, line feed, vertical tab, form
    feed, carriage return and space. *)
Definition ascii_space (c : ascii) : bool :=
  match c with
  | "009" | "010" | "011" | "012" | "013" | " " => true
  | _ => false
  end%char.

Fixpoint trim_left (s : string) : string :=
  match s with
  | EmptyString => EmptyString
  | String c r => if ascii_space c then trim_left r else s
  end.

Fixpoint trim_right (s : string) : string :=
  match s with
  | EmptyString => EmptyString
  | String c r =>
      match trim_right r with
      | EmptyString => if ascii_space c then EmptyString else String c EmptyString
      | r' => String c r'
      end
  end.

Definition ascii_trim (s : string) : string := trim_right (trim_left s).

(** ** The session state *)

(** A shell instance (a [Vantage] object), compared by identity. *)
Definition Owner := nat.

(** The completion callback handed to [prompt], compared by identity. *)
Definition CbId := nat.

(** inquirer's prompt object, as far as [ui.js] reads and writes it:
    [rl.line], [rl.cursor] and [status]. *)
Record Prompt : Type := mkPrompt {
  pid : nat;
  rl_line : string;
  rl_cursor : nat;
  status : string
}.

(** The options object of [prompt]; [None] is an absent property. *)
Record Options : Type := mkOptions {
  opt_delimiter : option string;
  opt_message : option string
}.

Definition no_options : Options := mkOptions None None.

(** Truthiness of a string-valued property. *)
Definition given (o : option string) : bool :=
  match o with
  | Some s => negb (String.eqb s "")
  | None => false
  end.

Definition PipeFn := list JSVal -> JSVal.

(** The fields of [ui] set in [_init] and by [setDelimiter], together with
    the [prefix] of inquirer's input and password prototypes, which
    [setDelimiter] overwrites ([None]: inquirer's own). *)
Record UI : Type := mkUI {
  parent : option Owner;
  _activePrompt : option Prompt;
  _midPrompt : bool;
  _cancelled : bool;
  _pipeFn : option PipeFn;
  _lastDelimiter : option string;
  prefix_password : option string;
  prefix_input : option string
}.

(** [_init] *)
Definition init_ui : UI :=
  mkUI None None false false None None None None.

Definition set_parent (p : option Owner) (u : UI) : UI :=
  mkUI p (_activePrompt u) (_midPrompt u) (_cancelled u) (_pipeFn u)
       (_lastDelimiter u) (prefix_password u) (prefix_input u).

Definition set_activePrompt (a : option Prompt) (u : UI) : UI :=
  mkUI (parent u) a (_midPrompt u) (_cancelled u) (_pipeFn u)
       (_lastDelimiter u) (prefix_password u) (prefix_input u).

Definition set_midPrompt (b : bool) (u : UI) : UI :=
  mkUI (parent u) (_activePrompt u) b (_cancelled u) (_pipeFn u)
       (_lastDelimiter u) (prefix_password u) (prefix_input u).

Definition set_cancelled (b : bool) (u : UI) : UI :=
  mkUI (parent u) (_activePrompt u) (_midPrompt u) b (_pipeFn u)
       (_lastDelimiter u) (prefix_password u) (prefix_input u).

Definition set_pipeFn (f : option PipeFn) (u : UI) : UI :=
  mkUI (parent u) (_activePrompt u) (_midPrompt u) (_cancelled u) f
       (_lastDelimiter u) (prefix_password u) (prefix_input u).

Definition set_delimiters (s : string) (u : UI) : UI :=
  mkUI (parent u) (_activePrompt u) (_midPrompt u) (_cancelled u) (_pipeFn u)
       (Some s) (Some s) (Some s).

Definition set_line (s : string) (p : Prompt) : Prompt :=
  mkPrompt (pid p) s (rl_cursor p) (status p).

Definition set_cursor (n : nat) (p : Prompt) : Prompt :=
  mkPrompt (pid p) (rl_line p) n (status p).

Definition set_status (s : string) (p : Prompt) : Prompt :=
  mkPrompt (pid p) (rl_line p) (rl_cursor p) s.

(** ** Calls across the module boundary *)

Inductive Call : Type :=
  | CConsoleLog (args : list JSVal)
  | CClean (p : nat)
  | CDone (p : nat)
  | CRender (p : nat)
  | CWrite (p : nat) (s : string)
  | CCacheCursorPos (p : nat)
  | CRestoreCursorPos (p : nat)
  | CShellPrompt (o : Owner)
  | CInquirerPrompt (opts : Options) (cb : CbId)
  | CCallback (cb : CbId) (result : JSVal).

Record World : Type := mkWorld {
  ui : UI;
  trace : list Call
}.

(** The argument lists of the [console.log] calls of a trace. *)
Fixpoint console_calls (t : list Call) : list (list JSVal) :=
  match t with
  | [] => []
  | CConsoleLog a :: t' => a :: console_calls t'
  | _ :: t' => console_calls t'
  end.

Fixpoint count_done (t : list Call) : nat :=
  match t with
  | [] => 0
  | CDone _ :: t' => S (count_done t')
  | _ :: t' => count_done t'
  end.

(** ** Completions and the state-and-exception monad *)

Inductive Completion (A : Type) : Type :=
  | Normal (a : A)
  | Throw (e : Exn).
Arguments Normal {A} a.
Arguments Throw {A} e.

Definition M (A : Type) : Type := World -> Completion A * World.

Definition ret {A} (a : A) : M A := fun w => (Normal a, w).

Definition bind {A B} (m : M A) (k : A -> M B) : M B :=
  fun w =>
    match m w with
    | (Normal a, w') => k a w'
    | (Throw e, w') => (Throw e, w')
    end.

Definition throw {A} (e : Exn) : M A := fun w => (Throw e, w).

Definition try_catch {A} (m : M A) (h : Exn -> M A) : M A :=
  fun w =>
    match m w with
    | (Normal a, w') => (Normal a, w')
    | (Throw e, w') => h e w'
    end.

Declare Scope js_scope.
Delimit Scope js_scope with js.
Notation "'let*' x ':=' m 'in' k" := (bind m (fun x => k))
  (at level 10, x name, m at level 100, k at level 200) : js_scope.
Notation "m ';;;' k" := (bind m (fun _ => k))
  (at level 100, k at level 200, right associativity) : js_scope.
Local Open Scope js_scope.

Definition this_ui : M UI := fun w => (Normal (ui w), w).

Definition assign (f : UI -> UI) : M unit :=
  fun w => (Normal tt, mkWorld (f (ui w)) (trace w)).

Definition call (c : Call) : M unit :=
  fun w => (Normal tt, mkWorld (ui w) (trace w ++ [c])).

Definition when (b : bool) (m : M unit) : M unit :=
  if b then m else ret tt.

(** [this._activePrompt.<member>]: reading a member of [undefined] throws. *)
Definition activePrompt : M Prompt :=
  let* u := this_ui in
  match _activePrompt u with
  | Some p => ret p
  | None => throw (JsTypeError "Cannot read property of undefined")
  end.

(** [this._activePrompt.m()] for an engine method [m]. *)
Definition active_call (c : nat -> Call) : M unit :=
  let* p := activePrompt in call (c (pid p)).

(** [this._activePrompt.x = v] *)
Definition active_assign (f : Prompt -> Prompt) : M unit :=
  let* p := activePrompt in assign (set_activePrompt (Some (f p))).

(** Results of the methods that return [false], a value or [this]. *)
Inductive Ret : Type := RFalse | RThis.
Inductive PauseRet : Type := PFalse | PLine (val : string).

(** ** Keypress events *)

(** A keypress as the engine reports it: [e.key] may be missing, and so
    may its [name]. *)
Record Key : Type := mkKey {
  key_name : option string
}.

Record KeyEvent : Type := mkKeyEvent {
  ev_key : option Key
}.

(** What [ui] emits as an EventEmitter: ["client_keypress"] with the raw
    event, ["vantage_ui_keypress"] with [{ key, value }]. *)
Inductive Emitted : Type :=
  | EmClientKeypress (e : KeyEvent)
  | EmUiKeypress (key : option string) (value : option string).

(** ** lib/ui.js *)

Section UI.

(** [String.prototype.trim] *)
Variable trim : string -> string.

(** [VantageUtil.fixArgsForApply], of lib/util.js: turns what it is given
    into an array that [Function.prototype.apply] accepts. *)
Variable fixArgsForApply : JSVal -> list JSVal.

(** [inquirer.prompt(options, callback)]: what the call does to the
    fields of [ui] (the patched [render] stores the new prompt object in
    [_activePrompt]) and whether it throws.  The callback is invoked by
    the engine's answer event, after the call has returned. *)
Variable inquirer_prompt : Options -> CbId -> UI -> Completion unit * UI.

(** [owner._prompt()], of the attached shell. *)
Variable shell_prompt : Owner -> UI -> Completion unit * UI.

Definition call_inquirer (options : Options) (cb : CbId) : M unit :=
  fun w =>
    let '(c, u) := inquirer_prompt options cb (ui w) in
    (c, mkWorld u (trace w ++ [CInquirerPrompt options cb])).

Definition call_shell (o : Owner) : M unit :=
  fun w =>
    let '(c, u) := shell_prompt o (ui w) in
    (c, mkWorld u (trace w ++ [CShellPrompt o])).

(** [this.parent._prompt()] *)
Definition parent_prompt : M unit :=
  let* u := this_ui in
  match parent u with
  | Some o => call_shell o
  | None => throw (JsTypeError "Cannot read property of undefined")
  end.

(** ui.js 123-133 *)
Definition setDelimiter (str : string) : M unit :=
  let* u := this_ui in
  match parent u with
  | None => ret tt
  | Some _ =>
      let str := trim str +:+ " " in
      assign (set_delimiters str)
  end.

(** The function handed to [inquirer.prompt], ui.js 90-93. *)
Definition prompt_callback (cb : CbId) (result : JSVal) : M unit :=
  assign (set_midPrompt false) ;;;
  call (CCallback cb result).

(** ui.js 74-97 *)
Definition prompt (options : option Options) (cb : CbId) : M unit :=
  let options := default no_options options in
  let* u := this_ui in
  match parent u with
  | None => ret tt
  | Some _ =>
      when (given (opt_delimiter options))
           (setDelimiter (default "" (opt_delimiter options))) ;;;
      when (given (opt_message options))
           (setDelimiter (default "" (opt_message options))) ;;;
      let* u := this_ui in
      if _midPrompt u then
        call (CConsoleLog [VStr "Prompt called when mid prompt..."]) ;;;
        throw (JsError "UI Prompt called when already mid prompt.")
      else
        assign (set_midPrompt true) ;;;
        try_catch
          (call_inquirer options cb)
          (fun e => call (CConsoleLog [VStr "Vantage Prompt error:"; VErr e]))
  end.

(** ui.js 107-111 *)
Definition midPrompt : M bool :=
  let* u := this_ui in
  ret (if _midPrompt u && bool_decide (is_Some (parent u)) then true else false).

(** ui.js 159-173 *)
Definition refresh : M Ret :=
  let* u := this_ui in
  match parent u with
  | None => ret RFalse
  | Some _ =>
      match _activePrompt u with
      | None => ret RFalse
      | Some _ =>
          if negb (_midPrompt u) then ret RFalse
          else
            active_call CClean ;;;
            assign (set_midPrompt false) ;;;
            assign (set_cancelled true) ;;;
            let* p := activePrompt in
            when (negb (String.eqb (status p) "answered"))
                 (active_assign (set_status "answered") ;;;
                  active_call CDone) ;;;
            assign (set_cancelled false) ;;;
            parent_prompt ;;;
            ret RThis
      end
  end.

(** ui.js 183-194 *)
Definition pause : M PauseRet :=
  let* u := this_ui in
  match parent u with
  | None => ret PFalse
  | Some _ =>
      match _activePrompt u with
      | None => ret PFalse
      | Some _ =>
          if negb (_midPrompt u) then ret PFalse
          else
            let* p := activePrompt in
            let val := rl_line p in
            assign (set_midPrompt false) ;;;
            assign (set_cancelled true) ;;;
            active_call CClean ;;;
            active_assign (set_status "answered") ;;;
            active_call CDone ;;;
            ret (PLine val)
      end
  end.

(** [this._activePrompt.clean().render().write(this._activePrompt.rl.line)]:
    [clean] and [render] return the prompt they are called on; the
    patched [render] (ui.js 58-63) stores it in [_activePrompt]. *)
Definition clean_render_write : M unit :=
  let* p := activePrompt in
  call (CClean (pid p)) ;;;
  assign (set_activePrompt (Some p)) ;;;
  call (CRender (pid p)) ;;;
  let* q := activePrompt in
  call (CWrite (pid p) (rl_line q)).

(** ui.js 206-218; [None] is a call without an argument. *)
Definition resume (val : option string) : M Ret :=
  let* u := this_ui in
  match parent u with
  | None => ret RThis
  | Some _ =>
      let val := default "" val in
      match _activePrompt u with
      | None => ret RThis
      | Some _ =>
          if _midPrompt u then ret RThis
          else
            parent_prompt ;;;
            active_assign (set_line val) ;;;
            active_assign (set_cursor (js_length val)) ;;;
            active_call CCacheCursorPos ;;;
            clean_render_write ;;;
            active_call CRestoreCursorPos ;;;
            ret RThis
      end
  end.

(** The first lines of [log], ui.js 280-287: the argument list as it
    reaches [console.log], [None] when the call is dropped. *)
Definition piped (u : UI) (arguments : list JSVal) : option (list JSVal) :=
  let args := fixArgsForApply (VArgs arguments) in
  let args := match _pipeFn u with
              | Some f => f args
              | None => VArr args
              end in
  if is_empty_str args then None
  else Some (fixArgsForApply args).

(** ui.js 279-300 *)
Definition log (arguments : list JSVal) : M Ret :=
  let* u := this_ui in
  match piped u arguments with
  | None => ret RThis
  | Some args =>
      let* mid := midPrompt in
      if mid then
        let* data := pause in
        call (CConsoleLog args) ;;;
        match data with
        | PLine val => resume (Some val) ;;; ret tt
        | PFalse =>
            call (CConsoleLog
                    [VStr "Log got back 'false' as data. This shouldn't happen.";
                     VBool false])
        end ;;;
        ret RThis
      else
        call (CConsoleLog args) ;;;
        ret RThis
  end.

(** ui.js 261-266 *)
Definition attach (vantage : Owner) : M Ret :=
  assign (set_parent (Some vantage)) ;;;
  refresh ;;;
  parent_prompt ;;;
  ret RThis.

(** ui.js 310-315; the argument is a shell or [undefined]. *)
Definition detach (vantage : option Owner) : M Ret :=
  let* u := this_ui in
  when (bool_decide (vantage = parent u))
       (assign (set_parent None)) ;;;
  ret RThis.

(** ui.js 227-233; the parameter [str] is not used. *)
Definition imprint : M Ret :=
  let* u := this_ui in
  match parent u with
  | None => ret RThis
  | Some _ =>
      let* p := activePrompt in
      let val := rl_line p in
      let* u := this_ui in
      let delimiter := default "" (_lastDelimiter u) in
      log [VStr (delimiter +:+ val)] ;;;
      ret RThis
  end.

(** ui.js 243-251 *)
Definition redraw (str : string) : M Ret :=
  let* u := this_ui in
  match parent u with
  | None => ret RThis
  | Some _ =>
      active_assign (set_line str) ;;;
      active_assign (set_cursor (js_length str)) ;;;
      active_call CCacheCursorPos ;;;
      clean_render_write ;;;
      active_call CRestoreCursorPos ;;;
      ret RThis
  end.

(** The [render] that [_init] puts on inquirer's input prototype, ui.js
    58-63: it records the prompt it is called on and calls the engine's
    own [render]. *)
Definition render (this : Prompt) : M unit :=
  assign (set_activePrompt (Some this)) ;;;
  call (CRender (pid this)).

(** ui.js 144-150.  [prompt] may be [undefined].  The result lists what
    the handler emits. *)
Definition _keypressHandler (e : KeyEvent) (prompt : option Prompt)
  : M (list Emitted) :=
  let* u := this_ui in
  match parent u with
  | None => ret []
  | Some _ =>
      assign (set_activePrompt prompt) ;;;
      let key := match ev_key e with
                 | Some k => key_name k
                 | None => None
                 end in
      let value := match prompt with
                   | Some p => Some (trim (rl_line p))
                   | None => None
                   end in
      ret [EmUiKeypress key value]
  end.

(** The [onKeypress] that [_init] puts on inquirer's input prototype,
    ui.js 51-54; the result lists what is emitted, in order. *)
Definition onKeypress (e : KeyEvent) (this : Prompt) : M (list Emitted) :=
  let* emitted := _keypressHandler e (Some this) in
  ret (EmClientKeypress e :: emitted).

End UI.

(** ** An engine and a shell to run the coordinator on *)

(** Arrays and [arguments] objects become their elements, anything else a
    one-element array. *)
Definition array_of (v : JSVal) : list JSVal :=
  match v with
  | VArr l | VArgs l => l
  | _ => [v]
  end.

(** An engine whose [prompt] draws an empty input line: the patched
    [render] stores the new prompt object in [_activePrompt]. *)
Definition input_prompt (options : Options) (cb : CbId) (u : UI)
  : Completion unit * UI :=
  let fresh := match _activePrompt u with
               | Some p => S (pid p)
               | None => 0
               end in
  (Normal tt, set_activePrompt (Some (mkPrompt fresh "" 0 "pending")) u).

(** A shell whose [_prompt] asks [ui.prompt] for a line unless one is
    live. *)
Definition local_shell (o : Owner) (u : UI) : Completion unit * UI :=
  if _midPrompt u && bool_decide (is_Some (parent u)) then (Normal tt, u)
  else
    let '(c, w) :=
      prompt ascii_trim input_prompt (Some (mkOptions None (Some "vantage~$"))) o
             (mkWorld u []) in
    (c, ui w).

(** ** The execution queue *)

Module Queue.

(** Modelled from the spec: the action of a command of the execution
    queue (lib/vantage.js is not part of the sources at hand).  An action
    fires its completion sink after [delay] turns of the event loop, or,
    for the "nested invocation" of section 4.2, "an action itself
    enqueuing another command and awaiting its result before completing",
    it enqueues after [delay] turns the command with the given input and
    action, awaits it, and goes on with [rest]. *)
Inductive Action : Type :=
  | Finish (delay : nat)
  | Await (delay : nat) (input : string) (inner : Action) (rest : Action).

(** Modelled from the spec: an ExecutionRequest, its raw input and the
    action of the command it resolves to. *)
Record Request : Type := mkRequest {
  req_input : string;
  req_action : Action
}.


(** Modelled from the spec: the queue of section 4.2, "holds pending
    ExecutionRequests in strict FIFO order and runs at most one action at
    a time".  Requests are numbered as they are enqueued.  [running] is
    the action that runs, with what is left of it; [waiting] holds the
    actions suspended on a command they enqueued, each with what is left
    of it and the number of the command awaited; [enqueued], [started] and
    [completed] log what happens, in the order it happens. *)
Record State : Type := mkState {
  next : nat;
  pending : list (nat * Request);
  running : option (nat * Action);
  waiting : list (nat * Action * nat);
  enqueued : list (nat * Request);
  started : list nat;
  completed : list nat
}.

(** Modelled from the spec: the queue before anything is submitted. *)
Definition initial : State := mkState 0 [] None [] [] [] [].

(** Modelled from the spec: a request "is appended to the same FIFO
    tail", whoever enqueues it. *)
Definition push (r : Request) (q : State) : State :=
  mkState (S (next q)) (pending q ++ [(next q, r)]) (running q) (waiting q)
          (enqueued q ++ [(next q, r)]) (started q) (completed q).

(** Modelled from the spec: "the queue does not advance to the next
    request until the current action's sink fires": the head of the
    queue is started only when no action is running. *)
Definition advance (q : State) : State :=
  match running q, pending q with
  | None, (t, r) :: rest =>
      mkState (next q) rest (Some (t, req_action r)) (waiting q)
              (enqueued q) (started q ++ [t]) (completed q)
  | _, _ => q
  end.

(** Modelled from the spec: [enqueue] by a caller. *)
Definition enqueue (r : Request) (q : State) : State := advance (push r q).

Definition awaits (t : nat) (e : nat * Action * nat) : Prop := e.2 = t.

#[local] Instance awaits_dec t e : Decision (awaits t e).
Proof. unfold awaits. apply _. Defined.

(** Modelled from the spec: the completion of request [t] is delivered.
    The action that awaited it goes on, in the place of the one that has
    completed; if none did, the queue advances. *)
Definition deliver (t : nat) (q : State) : State :=
  match list_find (awaits t) (waiting q) with
  | Some (i, (t', rest, _)) =>
      mkState (next q) (pending q) (Some (t', rest)) (delete i (waiting q))
              (enqueued q) (started q) (completed q ++ [t])
  | None =>
      advance (mkState (next q) (pending q) None (waiting q)
                       (enqueued q) (started q) (completed q ++ [t]))
  end.

(** Modelled from the spec: one turn of the event loop for the running
    action.  When its delay has elapsed it either fires its sink, or
    enqueues the command it goes on to await and is suspended, the queue
    advancing meanwhile ("the queue must not require the outer action to
    finish before starting items it itself submitted"). *)
Definition tick (q : State) : State :=
  match running q with
  | None => q
  | Some (t, Finish 0) => deliver t q
  | Some (t, Finish (S k)) =>
      mkState (next q) (pending q) (Some (t, Finish k)) (waiting q)
              (enqueued q) (started q) (completed q)
  | Some (t, Await 0 input inner rest) =>
      advance
        (push (mkRequest input inner)
           (mkState (next q) (pending q) None ((t, rest, next q) :: waiting q)
                    (enqueued q) (started q) (completed q)))
  | Some (t, Await (S k) input inner rest) =>
      mkState (next q) (pending q) (Some (t, Await k input inner rest))
              (waiting q) (enqueued q) (started q) (completed q)
  end.

(** Modelled from the spec: what can happen to the queue, a caller
    submitting a request or the event loop turning ("Single-threaded,
    event-driven execution", section 5). *)
Inductive Event : Type :=
  | Submit (r : Request)
  | Tick.

Definition step (q : State) (e : Event) : State :=
  match e with
  | Submit r => enqueue r q
  | Tick => tick q
  end.

Definition run (es : list Event) (q : State) : State := foldl step q es.








End Queue.

(** ** The command registry *)

Module Registry.

(** What an action delivers to its completion sink for given arguments. *)
Definition Action := list string -> JSVal.

(** Modelled from the spec: a Command of section 3 (lib/vantage.js and
    lib/command.js are not part of the sources at hand), with the parts
    re-registration and aliases touch: the normalized name, "sequence of
    literal words", which is its identity, the description, the action
    and the alias strings. *)
Record Command : Type := mkCommand {
  cmd_name : list string;
  cmd_description : string;
  cmd_action : Action;
  cmd_aliases : list string
}.

(** The registry, in registration order. *)
Abbreviation Registry := (list Command).

Definition named (n : list string) (c : Command) : Prop := cmd_name c = n.

#[local] Instance named_dec n c : Decision (named n c).
Proof. unfold named. apply _. Defined.

(** Modelled from the spec: "Re-registering a name already present
    replaces the prior command's action/description in place while
    preserving its position in the registry; aliases re-point to the
    latest registration under that name."  The name "is split into
    literal words"; a new name is appended. *)
Definition register (n d : string) (a : Action) (reg : Registry) : Registry :=
  match list_find (named (String.words n)) reg with
  | Some (i, c) => <[i := mkCommand (String.words n) d a (cmd_aliases c)]> reg
  | None => reg ++ [mkCommand (String.words n) d a []]
  end.

(** Modelled from the spec: "[alias(aliasString)] attaches an additional
    resolvable name" to the command registered under [n]. *)
Definition alias (n al : string) (reg : Registry) : Registry :=
  match list_find (named (String.words n)) reg with
  | Some (i, c) =>
      <[i := mkCommand (String.words n) (cmd_description c) (cmd_action c)
                       (cmd_aliases c ++ [al])]> reg
  | None => reg
  end.

(** Modelled from the spec: a run of registrations, each with its name,
    description and action. *)
Definition register_all (rs : list (string * string * Action))
                        (reg : Registry) : Registry :=
  foldl (fun r '(n, d, a) => register n d a r) reg rs.

(** The names a command goes by, each as its sequence of words. *)
Definition cmd_keys (c : Command) : list (list string) :=
  cmd_name c :: (String.words <$> cmd_aliases c).

(** Modelled from the spec: resolution of section 4.1, "the registered
    name (or alias) that is a literal-word prefix of the input and is the
    longest such match".  A key that matches scores one more than its
    number of words, a key that does not scores nothing; the first
    command with the best score wins. *)
Definition key_score (input k : list string) : nat :=
  if bool_decide (k `prefix_of` input) then S (length k) else 0.

Definition cmd_score (input : list string) (c : Command) : nat :=
  max_list (key_score input <$> cmd_keys c).

Definition best_score (input : list string) (reg : Registry) : nat :=
  max_list (cmd_score input <$> reg).

(** Modelled from the spec: the position of the command an input resolves
    to, [None] being the UnknownCommand outcome. *)
Definition resolve_index (input : list string) (reg : Registry) : option nat :=
  if bool_decide (best_score input reg = 0) then None
  else fst <$> list_find (fun c => cmd_score input c = best_score input reg) reg.

(** Modelled from the spec: the command found at that position when the
    input is resolved, hence with its current action. *)
Definition resolve (input : list string) (reg : Registry) : option Command :=
  i ← resolve_index input reg; reg !! i.

Definition names (reg : Registry) : list (list string) := cmd_name <$> reg.

(** [reg'] has, at every position of [reg], a command of the same name
    and aliases. *)
Definition extends (reg reg' : Registry) : Prop :=
  forall j c, reg !! j = Some c ->
    exists c', reg' !! j = Some c' /\
               cmd_name c' = cmd_name c /\ cmd_aliases c' = cmd_aliases c.

End Registry.

(** ** Loading lib/ui.js *)

Module Singleton.

(** [global.__vantage.ui]: whether a [ui] object has been published, and
    which. *)
Record Slot : Type := mkSlot {
  slot_exists : bool;
  slot_exports : option nat
}.

(** [global.__vantage], as far as ui.js reads it; the outer [option] of
    [Global] is [global.__vantage] itself, the inner one its [ui]. *)
Record Namespace : Type := mkNamespace {
  ns_ui : option Slot
}.

Definition Global := option Namespace.

(** What evaluating the module leaves behind: the global, the value of
    [module.exports], and whether [ui._init()] ran. *)
Record Loaded : Type := mkLoaded {
  global_after : Global;
  module_exports : option nat;
  ran_init : bool
}.

(** ui.js 342-355, for the object [ui] that this evaluation of the module
    has built (ui.js 13-316). *)
Definition load (ui : nat) (g : Global) : Loaded :=
  let ns := default (mkNamespace None) g in
  let slot := default (mkSlot false None) (ns_ui ns) in
  if negb (slot_exists slot) then
    mkLoaded (Some (mkNamespace (Some (mkSlot true (Some ui))))) (Some ui) true
  else
    mkLoaded (Some (mkNamespace (Some slot))) (slot_exports slot) false.

(** The module evaluated once per object of [uis], in order. *)
Fixpoint loads (uis : list nat) (g : Global) : list Loaded :=
  match uis with
  | [] => []
  | ui :: uis' =>
      let l := load ui g in
      l :: loads uis' (global_after l)
  end.

End Singleton.

(** ** The output capture of test/integration.js *)

Module Capture.

(** The variables [_all], [_stdout] and [_excess], integration.js 10-14. *)
Record Buffers : Type := mkBuffers {
  _all : string;
  _stdout : string;
  _excess : string
}.

Definition initial : Buffers := mkBuffers "" "" "".

Section Capture.

(** JavaScript's conversion of a value to a string, as [+=] applies it
    to what is appended to a string. *)
Variable ToString : JSVal -> string.

(** integration.js 16-20 *)
Definition onStdout (str : JSVal) (b : Buffers) : Buffers * JSVal :=
  (mkBuffers (_all b +:+ ToString str) (_stdout b +:+ ToString str) (_excess b),
   VStr "").

(** integration.js 22-26: [out] is a string, so [String(out || "")] is
    [out]. *)
Definition stdout (b : Buffers) : Buffers * string :=
  let out := _stdout b in
  (mkBuffers (_all b) "" (_excess b), out).

(** integration.js 95-97 *)
Definition afterEach (b : Buffers) : Buffers :=
  let '(b', out) := stdout b in
  mkBuffers (_all b') (_stdout b') (_excess b' +:+ out).

(** What the tests do to the buffers. *)
Inductive Op : Type :=
  | OnStdout (str : JSVal)
  | Stdout
  | AfterEach.

Definition step (b : Buffers) (o : Op) : Buffers :=
  match o with
  | OnStdout str => fst (onStdout str b)
  | Stdout => fst (stdout b)
  | AfterEach => afterEach b
  end.

Definition run (ops : list Op) (b : Buffers) : Buffers := foldl step b ops.

(** Everything a run of operations hands to [onStdout], as one string. *)
Fixpoint written (ops : list Op) : string :=
  match ops with
  | [] => ""
  | OnStdout str :: ops' => ToString str +:+ written ops'
  | _ :: ops' => written ops'
  end.

End Capture.

End Capture.

(** ** Reading a trace *)

(** The shells whose [_prompt] a trace calls, in order. *)
Fixpoint shell_calls (t : list Call) : list Owner :=
  match t with
  | [] => []
  | CShellPrompt o :: t' => o :: shell_calls t'
  | _ :: t' => shell_calls t'
  end.

(** The calls of [inquirer.prompt] in a trace, each with its options and
    callback. *)
Fixpoint inquirer_calls (t : list Call) : list (Options * CbId) :=
  match t with
  | [] => []
  | CInquirerPrompt o cb :: t' => (o, cb) :: inquirer_calls t'
  | _ :: t' => inquirer_calls t'
  end.

(** The delimiter a call of [prompt] sets, ui.js 78-83: the message when
    there is one, else the delimiter option, else none. *)
Definition prompt_delimiter (options : Options) : option string :=
  if given (opt_message options) then opt_message options
  else if given (opt_delimiter options) then opt_delimiter options
  else None.

Definition with_delimiter (trim : string -> string)
                          (d : option string) (u : UI) : UI :=
  match d with
  | Some str => set_delimiters (trim str +:+ " ") u
  | None => u
  end.

(** * Sample sessions, schedules and registries *)

(** A session left mid-prompt by a shell that has since detached. *)
Definition orphaned : World :=
  mkWorld (mkUI None (Some (mkPrompt 0 "he" 2 "pending")) true false None
                (Some "app$ ") (Some "app$ ") (Some "app$ ")) [].

(** A session in which shell [1] owns a live line holding [help], the
    cursor after the first character. *)
Definition typing : World :=
  mkWorld (mkUI (Some 1) (Some (mkPrompt 0 "help" 1 "pending")) true false None
                (Some "app$ ") (Some "app$ ") (Some "app$ ")) [].

(** [typing] with a pipe function installed. *)
Definition typing_piped (f : PipeFn) : World :=
  mkWorld (set_pipeFn (Some f) (ui typing)) [].

(** Shell [1] attached, mid-prompt, but no prompt object captured. *)
Definition promptless : World :=
  mkWorld (mkUI (Some 1) None true false None
                (Some "app$ ") (Some "app$ ") (Some "app$ ")) [].

(** Shell [1] attached, no line live, a pipe function installed. *)
Definition idle_piped (f : PipeFn) : World :=
  mkWorld (mkUI (Some 1) None false false (Some f)
                (Some "app$ ") (Some "app$ ") (Some "app$ ")) [].



(** A registry in which [overwritten] carries the alias [ow]. *)
Definition sample_registry : Registry.Registry :=
  [Registry.mkCommand ["help"] "Shows help." (fun _ => VStr "help") ["?"];
   Registry.mkCommand ["overwritten"] "First." (fun _ => VStr "a") ["ow"]].

(** The registrations of the test "should overwrite duplicate commands",
    after the first. *)
Definition overwrites_b : list (string * string * Registry.Action) :=
  [("overwrite me", "", fun _ => VStr "a");
   ("overwritten", "This command gets overwritten.", fun _ => VStr "b");
   ("overwrite me", "", fun _ => VStr "b")].

Definition overwrites_c : list (string * string * Registry.Action) :=
  [("overwrite me", "", fun _ => VStr "c")].

(** Shell [1] attached and mid-prompt, the prompt object at hand being
    one that was answered before. *)
Definition stale : World :=
  mkWorld (mkUI (Some 1) (Some (mkPrompt 0 "help" 4 "answered")) true false None
                (Some "app$ ") (Some "app$ ") (Some "app$ ")) [].

(** Shell [1] attached, its last line answered, none live. *)
Definition resting : World :=
  mkWorld (mkUI (Some 1) (Some (mkPrompt 0 "help" 1 "answered")) false false None
                (Some "app$ ") (Some "app$ ") (Some "app$ ")) [].

(** * Properties of the prompt coordinator *)

(** Name the fields of the session and let the hypotheses fix them. *)
Ltac fields w :=
  destruct w as [[? ? ? ? ? ? ? ?] ?]; cbn in * |-; subst.

(** Run the monadic code up to the calls of the parameters. *)
Ltac js :=
  cbv beta iota zeta delta
    [bind ret throw try_catch this_ui assign call when activePrompt
     active_call active_assign parent_prompt call_shell call_inquirer
     clean_render_write setDelimiter prompt prompt_callback midPrompt refresh
     pause resume log detach attach
     ui trace parent _activePrompt _midPrompt _cancelled _pipeFn
     _lastDelimiter prefix_password prefix_input
     set_parent set_activePrompt set_midPrompt set_cancelled set_pipeFn
     set_delimiters set_line set_cursor set_status
     pid rl_line rl_cursor status negb andb fst snd default];
  cbn [bool_decide decide_rel is_Some_dec option_eq_dec].

(** The same, for the proofs about the rest of lib/ui.js. *)
Ltac session w :=
  destruct w as [[pa ap mp ca pf ld pp pi] tr]; cbn in * |-; subst.

Ltac js_more :=
  cbv beta iota zeta delta
    [imprint redraw render _keypressHandler onKeypress with_delimiter];
  js.

Section Coordinator.

Variable trim : string -> string.
Variable fixArgsForApply : JSVal -> list JSVal.
Variable inquirer_prompt : Options -> CbId -> UI -> Completion unit * UI.
Variable shell_prompt : Owner -> UI -> Completion unit * UI.

(** C10. [midPrompt()] leaves the session as it is and answers [true]
    exactly when the [_midPrompt] flag is set and a shell is attached; in a
    detached session it answers [false] whatever the flag says. *)
Theorem midPrompt_needs_flag_and_owner (w : World) :
  (midPrompt w = (Normal true, w) \/ midPrompt w = (Normal false, w)) /\
  (midPrompt w = (Normal true, w) <->
     _midPrompt (ui w) = true /\ is_Some (parent (ui w))) /\
  (parent (ui w) = None -> midPrompt w = (Normal false, w)).
Proof.
  fields w. unfold midPrompt.
  destruct _midPrompt0, parent0 as [o|]; cbn;
    (split; [auto | split; [split; [intros [=] | intros [? [? ?]]] | intros ?]]);
    try discriminate; auto.
Qed.

(** C6. [detach(owner)] returns [this]; it clears [parent] when [owner] is
    the attached shell and does nothing otherwise; [_midPrompt],
    [_activePrompt], the delimiter, the pipe function and [_cancelled] are
    as they were, and nothing is called. *)
Theorem detach_touches_only_parent (owner : option Owner) (w : World) :
  exists w',
    detach owner w = (Normal RThis, w') /\
    (if bool_decide (owner = parent (ui w))
     then parent (ui w') = None
     else w' = w) /\
    _midPrompt (ui w') = _midPrompt (ui w) /\
    _activePrompt (ui w') = _activePrompt (ui w) /\
    _lastDelimiter (ui w') = _lastDelimiter (ui w) /\
    prefix_password (ui w') = prefix_password (ui w) /\
    prefix_input (ui w') = prefix_input (ui w) /\
    _pipeFn (ui w') = _pipeFn (ui w) /\
    _cancelled (ui w') = _cancelled (ui w) /\
    trace w' = trace w.
Proof.
  fields w. unfold detach. cbn.
  destruct (bool_decide (owner = parent0)); cbn;
    eexists; (split; [reflexivity|]); cbn; repeat split; reflexivity.
Qed.

(** C9. In a detached session [prompt(options, cb)] returns without
    throwing and changes nothing: the flag is not set and no call is
    issued, so [cb] is never handed to the engine. *)
Theorem prompt_detached_is_inert (options : option Options) (cb : CbId) (w : World) :
  parent (ui w) = None ->
  prompt trim inquirer_prompt options cb w = (Normal tt, w).
Proof.
  intros H. fields w. reflexivity.
Qed.

(** C2. With a shell attached, an active prompt and the session mid-prompt,
    [pause()] returns the line typed so far, clears [_midPrompt], and
    cleans and answers the prompt. *)
Theorem pause_returns_typed_line (w : World) (o : Owner) (p : Prompt) :
  parent (ui w) = Some o ->
  _activePrompt (ui w) = Some p ->
  _midPrompt (ui w) = true ->
  exists w',
    pause w = (Normal (PLine (rl_line p)), w') /\
    _midPrompt (ui w') = false /\
    _cancelled (ui w') = true /\
    _activePrompt (ui w') = Some (set_status "answered" p) /\
    parent (ui w') = Some o /\
    trace w' = trace w ++ [CClean (pid p); CDone (pid p)].
Proof.
  intros Ho Hp Hm. fields w. unfold pause. cbn.
  eexists. split; [reflexivity|]. cbn. rewrite <- app_assoc.
  repeat split; reflexivity.
Qed.

(** C5, as the code has it.  [refresh()] returns [false] and changes
    nothing when no shell is attached, there is no active prompt or the
    session is not mid-prompt.  Otherwise it cleans the line, clears
    [_midPrompt], leaves the prompt answered (setting its status and
    calling [done] once when it was not answered yet, doing neither when
    it was) and then calls the attached shell's [_prompt] on the session
    so prepared; what [_prompt] does is the outcome. *)
Theorem refresh_noop_or_restart (w : World) :
  ((parent (ui w) = None \/ _activePrompt (ui w) = None \/
    _midPrompt (ui w) = false) ->
   refresh shell_prompt w = (Normal RFalse, w)) /\
  (forall o p,
     parent (ui w) = Some o ->
     _activePrompt (ui w) = Some p ->
     _midPrompt (ui w) = true ->
     exists u1 p' evs,
       refresh shell_prompt w =
         (match fst (shell_prompt o u1) with
          | Normal _ => Normal RThis
          | Throw e => Throw e
          end,
          mkWorld (snd (shell_prompt o u1)) (trace w ++ evs ++ [CShellPrompt o])) /\
       parent u1 = Some o /\
       _midPrompt u1 = false /\
       _cancelled u1 = false /\
       _pipeFn u1 = _pipeFn (ui w) /\
       _lastDelimiter u1 = _lastDelimiter (ui w) /\
       prefix_password u1 = prefix_password (ui w) /\
       prefix_input u1 = prefix_input (ui w) /\
       _activePrompt u1 = Some p' /\
       status p' = "answered" /\
       pid p' = pid p /\ rl_line p' = rl_line p /\ rl_cursor p' = rl_cursor p /\
       evs = CClean (pid p) ::
             (if String.eqb (status p) "answered" then [] else [CDone (pid p)]) /\
       count_done evs = (if String.eqb (status p) "answered" then 0 else 1)).
Proof.
  split.
  - intros H. fields w. unfold refresh. cbn.
    destruct parent0; [|reflexivity].
    destruct _activePrompt0; [|reflexivity].
    destruct _midPrompt0; [|reflexivity].
    destruct H as [H|[H|H]]; discriminate.
  - intros o p Ho Hp Hm. fields w. destruct p as [i l c st].
    destruct (String.eqb st "answered") eqn:E.
    + apply String.eqb_eq in E. subst st.
      exists (mkUI (Some o) (Some (mkPrompt i l c "answered")) false false
                   _pipeFn0 _lastDelimiter0 prefix_password0 prefix_input0).
      exists (mkPrompt i l c "answered"), [CClean i].
      split; [|repeat split; cbn; rewrite ?String.eqb_refl; reflexivity].
      js. rewrite String.eqb_refl. js.
      destruct (shell_prompt o _) as [[[]|e] u2];
        rewrite <- ?app_assoc; reflexivity.
    + exists (mkUI (Some o) (Some (mkPrompt i l c "answered")) false false
                   _pipeFn0 _lastDelimiter0 prefix_password0 prefix_input0).
      exists (mkPrompt i l c "answered"), [CClean i; CDone i].
      split; [|repeat split; cbn; rewrite ?E; reflexivity].
      js. rewrite E. js.
      destruct (shell_prompt o _) as [[[]|e] u2];
        rewrite <- ?app_assoc; reflexivity.
Qed.

(** C1, as the code has it.  With a shell attached and the session
    mid-prompt, [prompt(options, cb)] throws; nothing is handed to the
    engine; the owner, the flag, the active prompt and the pipe function
    are as they were, and so is the delimiter when [options] carries
    neither a delimiter nor a message. *)
Theorem prompt_midprompt_refuses
    (options : option Options) (cb : CbId) (w : World) (o : Owner) :
  parent (ui w) = Some o ->
  _midPrompt (ui w) = true ->
  exists w',
    prompt trim inquirer_prompt options cb w =
      (Throw (JsError "UI Prompt called when already mid prompt."), w') /\
    parent (ui w') = Some o /\
    _midPrompt (ui w') = true /\
    _activePrompt (ui w') = _activePrompt (ui w) /\
    _pipeFn (ui w') = _pipeFn (ui w) /\
    _cancelled (ui w') = _cancelled (ui w) /\
    trace w' = trace w ++ [CConsoleLog [VStr "Prompt called when mid prompt..."]] /\
    (given (opt_delimiter (default no_options options)) = false ->
     given (opt_message (default no_options options)) = false ->
     ui w' = ui w).
Proof.
  intros Ho Hm. fields w. unfold prompt. cbn.
  destruct (given (opt_delimiter (default no_options options)));
    destruct (given (opt_message (default no_options options))); cbn;
    eexists; (split; [reflexivity|]); cbn;
    repeat split; try reflexivity; intros; discriminate.
Qed.

Lemma is_empty_str_spec (v : JSVal) : is_empty_str v = true <-> v = VStr "".
Proof.
  destruct v; cbn; try (split; intros; discriminate).
  rewrite String.eqb_eq. split; [intros ->; reflexivity | intros [= ->]; reflexivity].
Qed.

(** C3, as the code has it.  For a call that the pipe function does not
    drop.  When the session is mid-prompt with a shell attached and an
    active prompt, [log] pauses (cleans and answers the line, keeping what
    was typed), prints, and calls the shell's [_prompt]; if that throws,
    or leaves no active prompt, [log] throws there; otherwise the active
    prompt gets the captured text as its line, the cursor at its end, and
    is redrawn.  So when [_prompt] has started a line (the flag set, a
    shell attached), the session is mid-prompt again on a line that holds
    the captured text.  When the session is not mid-prompt or detached,
    [log] only prints. *)
Theorem log_pauses_prints_resumes (arguments out : list JSVal) (w : World) :
  piped fixArgsForApply (ui w) arguments = Some out ->
  (forall o p,
     parent (ui w) = Some o ->
     _midPrompt (ui w) = true ->
     _activePrompt (ui w) = Some p ->
     log fixArgsForApply shell_prompt arguments w =
       match shell_prompt o
               (set_activePrompt (Some (set_status "answered" p))
                  (set_cancelled true (set_midPrompt false (ui w)))) with
       | (Throw e, u2) =>
           (Throw e,
            mkWorld u2
              (trace w ++ [CClean (pid p); CDone (pid p); CConsoleLog out;
                           CShellPrompt o]))
       | (Normal _, u2) =>
           match _activePrompt u2 with
           | None =>
               (Throw (JsTypeError "Cannot read property of undefined"),
                mkWorld u2
                  (trace w ++ [CClean (pid p); CDone (pid p); CConsoleLog out;
                               CShellPrompt o]))
           | Some q =>
               (Normal RThis,
                mkWorld
                  (set_activePrompt
                     (Some (set_cursor (js_length (rl_line p))
                              (set_line (rl_line p) q))) u2)
                  (trace w ++
                   [CClean (pid p); CDone (pid p); CConsoleLog out;
                    CShellPrompt o; CCacheCursorPos (pid q); CClean (pid q);
                    CRender (pid q); CWrite (pid q) (rl_line p);
                    CRestoreCursorPos (pid q)]))
           end
       end) /\
  (forall o p u2 q,
     parent (ui w) = Some o ->
     _midPrompt (ui w) = true ->
     _activePrompt (ui w) = Some p ->
     shell_prompt o
       (set_activePrompt (Some (set_status "answered" p))
          (set_cancelled true (set_midPrompt false (ui w)))) = (Normal tt, u2) ->
     _activePrompt u2 = Some q ->
     _midPrompt u2 = true ->
     is_Some (parent u2) ->
     exists w',
       log fixArgsForApply shell_prompt arguments w = (Normal RThis, w') /\
       midPrompt w' = (Normal true, w') /\
       _activePrompt (ui w') =
         Some (mkPrompt (pid q) (rl_line p) (js_length (rl_line p)) (status q))) /\
  ((_midPrompt (ui w) = false \/ parent (ui w) = None) ->
   log fixArgsForApply shell_prompt arguments w =
     (Normal RThis, mkWorld (ui w) (trace w ++ [CConsoleLog out]))).
Proof.
  intros Hout.
  assert (Hrun : forall o p,
     parent (ui w) = Some o ->
     _midPrompt (ui w) = true ->
     _activePrompt (ui w) = Some p ->
     log fixArgsForApply shell_prompt arguments w =
       match shell_prompt o
               (set_activePrompt (Some (set_status "answered" p))
                  (set_cancelled true (set_midPrompt false (ui w)))) with
       | (Throw e, u2) =>
           (Throw e,
            mkWorld u2
              (trace w ++ [CClean (pid p); CDone (pid p); CConsoleLog out;
                           CShellPrompt o]))
       | (Normal _, u2) =>
           match _activePrompt u2 with
           | None =>
               (Throw (JsTypeError "Cannot read property of undefined"),
                mkWorld u2
                  (trace w ++ [CClean (pid p); CDone (pid p); CConsoleLog out;
                               CShellPrompt o]))
           | Some q =>
               (Normal RThis,
                mkWorld
                  (set_activePrompt
                     (Some (set_cursor (js_length (rl_line p))
                              (set_line (rl_line p) q))) u2)
                  (trace w ++
                   [CClean (pid p); CDone (pid p); CConsoleLog out;
                    CShellPrompt o; CCacheCursorPos (pid q); CClean (pid q);
                    CRender (pid q); CWrite (pid q) (rl_line p);
                    CRestoreCursorPos (pid q)]))
           end
       end).
  { intros o p Ho Hm Hp.
    unfold log at 1. unfold bind at 1. unfold this_ui at 1. rewrite Hout.
    fields w. js.
    destruct (shell_prompt o _) as [[[]|e] u2]; js;
      [|rewrite <- ?app_assoc; reflexivity].
    destruct u2 as [? [q|] ? ? ? ? ? ?]; js;
      rewrite <- ?app_assoc; reflexivity. }
  split; [exact Hrun|]. split.
  - intros o p u2 q Ho Hm Hp Hs Hq Hm2 [o2 Ho2].
    rewrite (Hrun o p Ho Hm Hp), Hs, Hq.
    eexists. split; [reflexivity|].
    destruct u2 as [? ? ? ? ? ? ? ?]. cbn in Hm2, Ho2. subst.
    split; reflexivity.
  - intros H.
    unfold log at 1. unfold bind at 1. unfold this_ui at 1. rewrite Hout.
    fields w. js.
    destruct H as [->| ->]; [reflexivity|].
    destruct _midPrompt0; reflexivity.
Qed.

(** C4, as the code has it.  With a pipe function installed, [log] prints
    nothing and changes nothing when the function returns the empty
    string; for any other result, falsy ones and the empty array included,
    [console.log] is applied to that result as [fixArgsForApply] renders
    it, the function having been applied once, to the original arguments;
    the only other line [log] can print is its complaint when it finds the
    session mid-prompt without an active prompt. *)
Theorem log_pipe_drops_only_empty_string
    (f : PipeFn) (arguments : list JSVal) (w : World) :
  _pipeFn (ui w) = Some f ->
  (f (fixArgsForApply (VArgs arguments)) = VStr "" ->
   log fixArgsForApply shell_prompt arguments w = (Normal RThis, w)) /\
  (f (fixArgsForApply (VArgs arguments)) <> VStr "" ->
   exists c w' evs,
     log fixArgsForApply shell_prompt arguments w = (c, w') /\
     trace w' = trace w ++ evs /\
     console_calls evs =
       fixArgsForApply (f (fixArgsForApply (VArgs arguments))) ::
       (if _midPrompt (ui w) && bool_decide (is_Some (parent (ui w)))
           && negb (bool_decide (is_Some (_activePrompt (ui w))))
        then [[VStr "Log got back 'false' as data. This shouldn't happen.";
               VBool false]]
        else [])).
Proof.
  intros Hf. split.
  - intros Hv. unfold log, piped, bind, this_ui. rewrite Hf, Hv.
    destruct w; reflexivity.
  - intros Hv.
    assert (Hp : piped fixArgsForApply (ui w) arguments =
                 Some (fixArgsForApply (f (fixArgsForApply (VArgs arguments))))).
    { unfold piped. rewrite Hf.
      destruct (is_empty_str _) eqn:E; [|reflexivity].
      apply is_empty_str_spec in E. contradiction. }
    unfold log at 1. unfold bind at 1. unfold this_ui at 1.
    rewrite Hp. clear Hp Hf Hv.
    fields w. js.
    destruct _midPrompt0; js;
      [|do 3 eexists; split; [reflexivity|split; [reflexivity|reflexivity]]].
    destruct parent0 as [o|]; js;
      [|do 3 eexists; split; [reflexivity|split; [reflexivity|reflexivity]]].
    destruct _activePrompt0 as [p|]; js.
    + destruct (shell_prompt o _) as [[[]|e] u2]; js.
      * destruct u2 as [? [q|] ? ? ? ? ? ?]; js;
          do 3 eexists; (split; [reflexivity|]); cbn;
          rewrite <- ?app_assoc; (split; [reflexivity|reflexivity]).
      * do 3 eexists. split; [reflexivity|]. cbn.
        rewrite <- ?app_assoc. split; reflexivity.
    + do 3 eexists. split; [reflexivity|]. cbn.
      rewrite <- ?app_assoc. split; reflexivity.
Qed.

End Coordinator.

(** ** The coordinator on the sample sessions *)

Lemma midPrompt_orphaned_witness : midPrompt orphaned = (Normal false, orphaned).
Proof.
  apply (proj2 (proj2 (midPrompt_needs_flag_and_owner orphaned))).
  reflexivity.
Defined.

Lemma prompt_detached_witness :
  parent (ui orphaned) = None /\
  prompt ascii_trim input_prompt (Some (mkOptions None (Some "app$"))) 7 orphaned
    = (Normal tt, orphaned).
Proof.
  split; [reflexivity|].
  apply (prompt_detached_is_inert ascii_trim input_prompt). reflexivity.
Defined.

Lemma pause_typing_witness :
  exists w',
    pause typing = (Normal (PLine "help"), w') /\
    _midPrompt (ui w') = false /\
    _cancelled (ui w') = true /\
    _activePrompt (ui w') = Some (mkPrompt 0 "help" 1 "answered") /\
    parent (ui w') = Some 1 /\
    trace w' = [CClean 0; CDone 0].
Proof.
  exact (pause_returns_typed_line typing 1 (mkPrompt 0 "help" 1 "pending")
           eq_refl eq_refl eq_refl).
Defined.

Lemma refresh_witness :
  refresh local_shell orphaned = (Normal RFalse, orphaned) /\
  exists u1 p' evs,
    refresh local_shell typing =
      (match fst (local_shell 1 u1) with
       | Normal _ => Normal RThis
       | Throw e => Throw e
       end,
       mkWorld (snd (local_shell 1 u1)) (trace typing ++ evs ++ [CShellPrompt 1])) /\
    _midPrompt u1 = false /\
    _activePrompt u1 = Some p' /\
    status p' = "answered" /\
    evs = [CClean 0; CDone 0] /\
    count_done evs = 1.
Proof.
  split.
  - apply (proj1 (refresh_noop_or_restart local_shell orphaned)).
    left. reflexivity.
  - destruct (proj2 (refresh_noop_or_restart local_shell typing)
                1 (mkPrompt 0 "help" 1 "pending") eq_refl eq_refl eq_refl)
      as (u1 & p' & evs & H1 & _ & Hm & _ & _ & _ & _ & _ & Ha & Hs & _ & _ & _ & He & Hc).
    exists u1, p', evs. repeat split; assumption.
Defined.

(** C5 fails as stated: on a live line whose prompt is answered already,
    [refresh] cleans the line and calls the shell, but marks nothing and
    never calls [done]. *)
Lemma refresh_counterexample :
  _midPrompt (ui stale) = true /\
  refresh local_shell stale =
    (Normal RThis,
     mkWorld (mkUI (Some 1) (Some (mkPrompt 1 "" 0 "pending")) true false None
                   (Some "vantage~$ ") (Some "vantage~$ ") (Some "vantage~$ "))
             [CClean 0; CShellPrompt 1]) /\
  count_done [CClean 0; CShellPrompt 1] = 0.
Proof. repeat split; reflexivity. Qed.

Lemma prompt_midprompt_witness :
  exists w',
    prompt ascii_trim input_prompt None 7 typing =
      (Throw (JsError "UI Prompt called when already mid prompt."), w') /\
    parent (ui w') = Some 1 /\
    _midPrompt (ui w') = true /\
    _activePrompt (ui w') = _activePrompt (ui typing) /\
    _pipeFn (ui w') = _pipeFn (ui typing) /\
    _cancelled (ui w') = _cancelled (ui typing) /\
    trace w' = trace typing ++ [CConsoleLog [VStr "Prompt called when mid prompt..."]] /\
    (given None = false -> given None = false -> ui w' = ui typing).
Proof.
  exact (prompt_midprompt_refuses ascii_trim input_prompt None 7 typing 1 eq_refl eq_refl).
Defined.

(** C1 fails as stated, twice.  In the orphaned session the flag is set
    and [prompt] returns without throwing; in [typing], a call that
    carries a message throws only after the delimiter has been replaced. *)
Lemma prompt_midprompt_counterexample :
  (_midPrompt (ui orphaned) = true /\
   prompt ascii_trim input_prompt None 7 orphaned = (Normal tt, orphaned)) /\
  (_midPrompt (ui typing) = true /\
   _lastDelimiter (ui typing) = Some "app$ " /\
   prompt ascii_trim input_prompt (Some (mkOptions None (Some "other>"))) 7 typing =
     (Throw (JsError "UI Prompt called when already mid prompt."),
      mkWorld (mkUI (Some 1) (Some (mkPrompt 0 "help" 1 "pending")) true false None
                    (Some "other> ") (Some "other> ") (Some "other> "))
              [CConsoleLog [VStr "Prompt called when mid prompt..."]])).
Proof. repeat split; reflexivity. Qed.

Lemma log_witness :
  (exists w',
     log array_of local_shell [VStr "done"] typing = (Normal RThis, w') /\
     midPrompt w' = (Normal true, w') /\
     _activePrompt (ui w') = Some (mkPrompt 1 "help" 4 "pending")) /\
  log array_of local_shell [VStr "done"] orphaned =
    (Normal RThis, mkWorld (ui orphaned) [CConsoleLog [VStr "done"]]).
Proof.
  split.
  - exact (proj1 (proj2 (log_pauses_prints_resumes array_of local_shell
                           [VStr "done"] [VStr "done"] typing eq_refl))
             1 (mkPrompt 0 "help" 1 "pending")
             (mkUI (Some 1) (Some (mkPrompt 1 "" 0 "pending")) true true None
                   (Some "vantage~$ ") (Some "vantage~$ ") (Some "vantage~$ "))
             (mkPrompt 1 "" 0 "pending")
             eq_refl eq_refl eq_refl eq_refl eq_refl eq_refl
             (ex_intro _ 1 eq_refl)).
  - apply (proj2 (proj2 (log_pauses_prints_resumes array_of local_shell
                    [VStr "done"] [VStr "done"] orphaned eq_refl))).
    right. reflexivity.
Defined.

(** C3 fails as stated, twice.  With a pipe function that returns the
    empty string, a [log] call in the mid-prompt session [typing] does
    nothing at all: the line is not hidden and the cursor stays after the
    first of four characters.  In a mid-prompt session without a prompt
    object, [log] prints, complains, and restores nothing. *)
Lemma log_counterexample :
  (midPrompt (typing_piped (fun _ => VStr "")) =
     (Normal true, typing_piped (fun _ => VStr "")) /\
   log array_of local_shell [VStr "done"] (typing_piped (fun _ => VStr "")) =
     (Normal RThis, typing_piped (fun _ => VStr "")) /\
   _activePrompt (ui (typing_piped (fun _ => VStr ""))) =
     Some (mkPrompt 0 "help" 1 "pending")) /\
  (midPrompt promptless = (Normal true, promptless) /\
   log array_of local_shell [VStr "done"] promptless =
     (Normal RThis,
      mkWorld (ui promptless)
              [CConsoleLog [VStr "done"];
               CConsoleLog [VStr "Log got back 'false' as data. This shouldn't happen.";
                            VBool false]])).
Proof. repeat split; reflexivity. Qed.

Lemma log_pipe_witness :
  log array_of local_shell [VStr "done"] (idle_piped (fun _ => VStr "")) =
    (Normal RThis, idle_piped (fun _ => VStr "")) /\
  exists c w' evs,
    log array_of local_shell [VStr "done"]
        (idle_piped (fun l => VArr (VStr "log:" :: l))) = (c, w') /\
    trace w' = [] ++ evs /\
    console_calls evs = [[VStr "log:"; VStr "done"]].
Proof.
  split.
  - apply (proj1 (log_pipe_drops_only_empty_string array_of local_shell
                    (fun _ => VStr "") [VStr "done"]
                    (idle_piped (fun _ => VStr "")) eq_refl)).
    reflexivity.
  - apply (proj2 (log_pipe_drops_only_empty_string array_of local_shell
                    (fun l => VArr (VStr "log:" :: l)) [VStr "done"]
                    (idle_piped (fun l => VArr (VStr "log:" :: l))) eq_refl)).
    discriminate.
Defined.

(** C4 fails as stated: a pipe function that returns [false], or the
    empty array, does not silence [log]; [console.log] is still called. *)
Lemma log_pipe_counterexample :
  (js_truthy (VBool false) = false /\
   log array_of local_shell [VStr "done"] (idle_piped (fun _ => VBool false)) =
     (Normal RThis,
      mkWorld (ui (idle_piped (fun _ => VBool false)))
              [CConsoleLog [VBool false]])) /\
  log array_of local_shell [VStr "done"] (idle_piped (fun _ => VArr [])) =
    (Normal RThis,
     mkWorld (ui (idle_piped (fun _ => VArr []))) [CConsoleLog []]).
Proof. repeat split; reflexivity. Qed.

(** * Properties of the execution queue *)

Section QueueOrder.

Import Queue.






















End QueueOrder.



(** * Properties of the command registry *)

Section RegistryFacts.

Import Registry.

Lemma extends_refl reg : extends reg reg.
Proof. intros j c H. eauto. Qed.

Lemma extends_trans r1 r2 r3 : extends r1 r2 -> extends r2 r3 -> extends r1 r3.
Proof.
  intros H12 H23 j c H.
  destruct (H12 j c H) as (c' & H' & Hn & Ha).
  destruct (H23 j c' H') as (c'' & H'' & Hn' & Ha').
  exists c''. repeat split; congruence.
Qed.

Lemma register_cases n d a reg :
  (exists i c0, reg !! i = Some c0 /\ cmd_name c0 = String.words n /\
     register n d a reg =
       <[i := mkCommand (String.words n) d a (cmd_aliases c0)]> reg) \/
  ((String.words n ∉ names reg) /\
   register n d a reg = reg ++ [mkCommand (String.words n) d a []]).
Proof.
  unfold register.
  destruct (list_find (named (String.words n)) reg) as [[i c0]|] eqn:E.
  - apply list_find_Some in E as (Hi & Hn & _). left. eauto.
  - right. split; [|reflexivity].
    rewrite list_find_None, Forall_forall in E.
    unfold names. rewrite list_elem_of_fmap. intros (c & Hn & Hc).
    apply (E c); [assumption|]. unfold named. congruence.
Qed.

Lemma names_register n d a reg :
  names (register n d a reg) = names reg \/
  ((String.words n ∉ names reg) /\
   names (register n d a reg) = names reg ++ [String.words n]).
Proof.
  destruct (register_cases n d a reg) as [(i & c0 & Hi & Hn & ->)|[Hn ->]].
  - left. unfold names. rewrite list_fmap_insert. cbn.
    apply list_insert_id. rewrite list_lookup_fmap, Hi. cbn. congruence.
  - right. split; [assumption|]. unfold names. rewrite fmap_app. reflexivity.
Qed.

Lemma register_NoDup n d a reg :
  NoDup (names reg) -> NoDup (names (register n d a reg)).
Proof.
  intros H. destruct (names_register n d a reg) as [->|[Hn ->]]; [assumption|].
  apply NoDup_app. repeat split; [assumption| |apply NoDup_singleton].
  intros x Hx Hx'. apply list_elem_of_singleton in Hx'. subst. contradiction.
Qed.

Lemma register_lookup_other n d a reg j c :
  reg !! j = Some c -> cmd_name c <> String.words n ->
  register n d a reg !! j = Some c.
Proof.
  intros Hj Hc.
  destruct (register_cases n d a reg) as [(i & c0 & Hi & Hn & ->)|[Hn ->]].
  - rewrite list_lookup_insert_ne; [assumption|]. intros ->. congruence.
  - apply lookup_app_l_Some, Hj.
Qed.

Lemma register_extends n d a reg : extends reg (register n d a reg).
Proof.
  intros j c Hj.
  destruct (register_cases n d a reg) as [(i & c0 & Hi & Hn & ->)|[Hn ->]].
  - destruct (decide (i = j)) as [->|Hne].
    + rewrite list_lookup_insert_eq by (eapply lookup_lt_Some, Hj).
      eexists. split; [reflexivity|]. cbn. split; congruence.
    + rewrite list_lookup_insert_ne by assumption. eauto.
  - exists c. split; [apply lookup_app_l_Some, Hj|auto].
Qed.

Lemma register_binds n d a reg :
  exists i c, register n d a reg !! i = Some c /\
    cmd_name c = String.words n /\ cmd_description c = d /\ cmd_action c = a.
Proof.
  destruct (register_cases n d a reg) as [(i & c0 & Hi & Hn & ->)|[Hn ->]].
  - exists i. eexists.
    split; [apply list_lookup_insert_eq; eapply lookup_lt_Some, Hi|].
    cbn. auto.
  - exists (length reg). eexists.
    split; [rewrite lookup_app_r by lia; rewrite Nat.sub_diag; reflexivity|].
    cbn. auto.
Qed.

Lemma register_all_app rs rs' reg :
  register_all (rs ++ rs') reg = register_all rs' (register_all rs reg).
Proof. unfold register_all. apply foldl_app. Qed.

Lemma register_all_NoDup rs : forall reg,
  NoDup (names reg) -> NoDup (names (register_all rs reg)).
Proof.
  induction rs as [|[[n d] a] rs IH]; intros reg H; [assumption|].
  apply IH, register_NoDup, H.
Qed.

Lemma register_all_extends rs : forall reg, extends reg (register_all rs reg).
Proof.
  induction rs as [|[[n d] a] rs IH]; intros reg; [apply extends_refl|].
  eapply extends_trans; [apply register_extends|apply IH].
Qed.

Lemma register_all_lookup_other n rs : forall reg j c,
  n ∉ (fun r => String.words r.1.1) <$> rs ->
  reg !! j = Some c -> cmd_name c = n -> register_all rs reg !! j = Some c.
Proof.
  induction rs as [|[[n' d] a] rs IH]; intros reg j c Hn Hj Hc; [assumption|].
  cbn in Hn. apply not_elem_of_cons in Hn as [Hne Hn].
  apply IH; [assumption| |assumption].
  apply register_lookup_other; congruence.
Qed.

(** No key scores more than the whole input, and one that scores as
    much is the input. *)
Lemma key_score_le input k : key_score input k <= S (length input).
Proof.
  unfold key_score. case_bool_decide as H; [|lia].
  apply prefix_length in H. lia.
Qed.

Lemma key_score_self k : key_score k k = S (length k).
Proof. unfold key_score. rewrite bool_decide_eq_true_2; reflexivity. Qed.

Lemma key_score_full input k : key_score input k = S (length input) -> k = input.
Proof.
  unfold key_score. case_bool_decide as H; [|discriminate].
  intros [= Hl]. apply prefix_length_eq; [assumption|lia].
Qed.

Lemma max_list_le ns m : Forall (fun n => n <= m) ns -> max_list ns <= m.
Proof. induction 1; cbn; lia. Qed.

Lemma cmd_score_le input c : cmd_score input c <= S (length input).
Proof.
  unfold cmd_score. apply max_list_le, Forall_fmap, Forall_forall.
  intros k _. apply key_score_le.
Qed.

Lemma cmd_score_key k c : k ∈ cmd_keys c -> cmd_score k c = S (length k).
Proof.
  intros H. apply Nat.le_antisymm; [apply cmd_score_le|].
  unfold cmd_score. apply max_list_elem_of_le.
  rewrite <- key_score_self. apply list_elem_of_fmap_2, H.
Qed.

Lemma cmd_score_full input c :
  cmd_score input c = S (length input) -> input ∈ cmd_keys c.
Proof.
  unfold cmd_score. intros H.
  assert (Hin : max_list (key_score input <$> cmd_keys c)
                ∈ key_score input <$> cmd_keys c).
  { apply max_list_elem_of. unfold cmd_keys. discriminate. }
  rewrite H in Hin. apply list_elem_of_fmap in Hin as (k & Hk & Hin).
  symmetry in Hk. apply key_score_full in Hk. subst. exact Hin.
Qed.

Lemma best_score_key k c reg j :
  reg !! j = Some c -> k ∈ cmd_keys c -> best_score k reg = S (length k).
Proof.
  intros Hj H. apply Nat.le_antisymm.
  - unfold best_score. apply max_list_le, Forall_fmap, Forall_forall.
    intros c' _. apply cmd_score_le.
  - unfold best_score. apply max_list_elem_of_le.
    rewrite <- (cmd_score_key k c H). apply list_elem_of_fmap_2.
    eapply list_elem_of_lookup_2, Hj.
Qed.

(** An input that is a key of a command, and of none before it, resolves
    to that command. *)
Lemma resolve_first_key k reg j c :
  reg !! j = Some c -> k ∈ cmd_keys c ->
  (forall i c', i < j -> reg !! i = Some c' -> k ∉ cmd_keys c') ->
  resolve k reg = Some c.
Proof.
  intros Hj Hk Hfirst. unfold resolve, resolve_index.
  rewrite (best_score_key k c reg j Hj Hk).
  rewrite bool_decide_eq_false_2 by lia.
  assert (E : list_find (fun c => cmd_score k c = S (length k)) reg = Some (j, c)).
  { apply list_find_Some. split; [assumption|]. split.
    - apply cmd_score_key, Hk.
    - intros i y Hi Hlt Hs. apply (Hfirst i y Hlt Hi).
      apply cmd_score_full, Hs. }
  rewrite E. cbn. exact Hj.
Qed.

Lemma extends_keys reg reg' j c :
  extends reg reg' -> reg !! j = Some c ->
  exists c', reg' !! j = Some c' /\ cmd_keys c' = cmd_keys c.
Proof.
  intros Hext Hj. destruct (Hext j c Hj) as (c' & Hj' & Hn & Ha).
  exists c'. split; [assumption|]. unfold cmd_keys. rewrite Hn, Ha. reflexivity.
Qed.

(** C8, on the registry of sections 3 and 4.1.  Take any registry whose
    normalized names are distinct and any run of registrations in which
    the last one under the name [n] carries description [d] and action
    [a].  Afterwards one command is bound to the normalized name of [n],
    with [d] and [a]; a command that held the name before sits at the same
    position and its aliases are the live command's; and each of its names
    and aliases, if no command before it in the registry goes by it,
    resolves to the live command, hence to the action [a]. *)
Theorem reregistration_keeps_one_live_command
    (reg : Registry) (pre post : list (string * string * Action))
    (n d : string) (a : Action) :
  NoDup (names reg) ->
  String.words n ∉ (fun r => String.words r.1.1) <$> post ->
  exists i c,
    register_all (pre ++ (n, d, a) :: post) reg !! i = Some c /\
    cmd_name c = String.words n /\ cmd_description c = d /\ cmd_action c = a /\
    (forall j c', register_all (pre ++ (n, d, a) :: post) reg !! j = Some c' ->
                  cmd_name c' = String.words n -> j = i) /\
    (forall j c0, reg !! j = Some c0 -> cmd_name c0 = String.words n ->
                  j = i /\ cmd_aliases c = cmd_aliases c0) /\
    (forall j c0 k, reg !! j = Some c0 -> cmd_name c0 = String.words n ->
                    k ∈ cmd_keys c0 ->
                    (forall i' c', i' < j -> reg !! i' = Some c' ->
                                   k ∉ cmd_keys c') ->
                    resolve k (register_all (pre ++ (n, d, a) :: post) reg) =
                      Some c).
Proof.
  intros Hnd Hpost.
  set (reg' := register_all (pre ++ (n, d, a) :: post) reg).
  assert (Hreg' : reg' = register_all post
                           (register n d a (register_all pre reg))).
  { unfold reg'. rewrite register_all_app. reflexivity. }
  destruct (register_binds n d a (register_all pre reg))
    as (i & c & Hi & Hn & Hd & Ha).
  assert (Hi' : reg' !! i = Some c).
  { rewrite Hreg'. apply (register_all_lookup_other (String.words n)); assumption. }
  assert (Hnd' : NoDup (names reg')).
  { unfold reg'. apply register_all_NoDup, Hnd. }
  assert (Hone : forall j c', reg' !! j = Some c' ->
                              cmd_name c' = String.words n -> j = i).
  { intros j c' Hj Hc'.
    apply (NoDup_lookup (names reg') j i (String.words n) Hnd').
    - unfold names. rewrite list_lookup_fmap, Hj. cbn. congruence.
    - unfold names. rewrite list_lookup_fmap, Hi'. cbn. congruence. }
  assert (Hext : extends reg reg').
  { unfold reg'. apply register_all_extends. }
  assert (Hold : forall j c0, reg !! j = Some c0 -> cmd_name c0 = String.words n ->
                              j = i /\ cmd_aliases c = cmd_aliases c0).
  { intros j c0 Hj Hc0.
    destruct (Hext j c0 Hj) as (c' & Hj' & Hn' & Ha').
    assert (j = i) as -> by (apply (Hone j c'); congruence).
    split; [reflexivity|]. congruence. }
  exists i, c. repeat split; try assumption.
  - apply (Hold j c0); assumption.
  - apply (Hold j c0); assumption.
  - intros j c0 k Hj Hc0 Hk Hfirst.
    destruct (Hold j c0 Hj Hc0) as [-> Hal].
    apply (resolve_first_key k reg' i c Hi').
    + unfold cmd_keys in *. rewrite Hn, Hal, <- Hc0. exact Hk.
    + intros i' c' Hlt Hi'c Hin.
      destruct (lookup_lt_is_Some_2 reg i') as [c1 Hc1].
      { apply lookup_lt_Some in Hj. lia. }
      destruct (extends_keys reg reg' i' c1 Hext Hc1) as (c2 & Hc2 & Hkeys).
      rewrite Hi'c in Hc2. injection Hc2 as <-.
      apply (Hfirst i' c1 Hlt Hc1). rewrite <- Hkeys. exact Hin.
Qed.

End RegistryFacts.

Lemma reregistration_witness :
  exists i c,
    Registry.register_all
      (overwrites_b ++
       ("overwritten", "This command gets overwritten.", fun _ => VStr "c")
       :: overwrites_c) sample_registry !! i = Some c /\
    Registry.cmd_name c = ["overwritten"] /\
    Registry.cmd_description c = "This command gets overwritten." /\
    Registry.cmd_action c = (fun _ => VStr "c") /\
    i = 1 /\
    Registry.cmd_aliases c = ["ow"] /\
    Registry.resolve ["ow"]
      (Registry.register_all
         (overwrites_b ++
          ("overwritten", "This command gets overwritten.", fun _ => VStr "c")
          :: overwrites_c) sample_registry) = Some c.
Proof.
  destruct (reregistration_keeps_one_live_command sample_registry overwrites_b
              overwrites_c "overwritten" "This command gets overwritten."
              (fun _ => VStr "c"))
    as (i & c & H1 & H2 & H3 & H4 & _ & Hold & Hres).
  - apply (bool_decide_unpack _). vm_compute. exact I.
  - apply (bool_decide_unpack _). vm_compute. exact I.
  - exists i, c.
    destruct (Hold 1 (Registry.mkCommand ["overwritten"] "First."
                        (fun _ => VStr "a") ["ow"]) eq_refl eq_refl)
      as [Hi Hal].
    repeat split; try assumption; try (symmetry; assumption).
    apply (Hres 1 (Registry.mkCommand ["overwritten"] "First."
                     (fun _ => VStr "a") ["ow"]) ["ow"] eq_refl eq_refl).
    + apply (bool_decide_unpack _). vm_compute. exact I.
    + intros i' c' Hlt Hl. destruct i' as [|i']; [|lia].
      injection Hl as <-. apply (bool_decide_unpack _). vm_compute. exact I.
Defined.

(** The test "should overwrite duplicate commands": after registering
    both names three times, and through the alias too, the action that
    runs is the last one registered. *)
Example overwritten_runs_last_action :
  (fun c => Registry.cmd_action c []) <$>
    Registry.resolve ["overwritten"]
      (Registry.register_all
         (overwrites_b ++
          ("overwritten", "This command gets overwritten.", fun _ => VStr "c")
          :: overwrites_c) sample_registry) = Some (VStr "c") /\
  (fun c => Registry.cmd_action c []) <$>
    Registry.resolve ["ow"; "now"]
      (Registry.register_all
         (overwrites_b ++
          ("overwritten", "This command gets overwritten.", fun _ => VStr "c")
          :: overwrites_c) sample_registry) = Some (VStr "c") /\
  (fun c => Registry.cmd_action c []) <$>
    Registry.resolve ["overwrite"; "me"]
      (Registry.register_all
         (overwrites_b ++
          ("overwritten", "This command gets overwritten.", fun _ => VStr "c")
          :: overwrites_c) sample_registry) = Some (VStr "c").
Proof. vm_compute. repeat split. Qed.

(** * Further properties of the prompt coordinator *)

(** ** White space *)

Lemma trim_left_head (s : string) :
  trim_left s = "" \/
  exists c r, trim_left s = String c r /\ ascii_space c = false.
Proof.
  induction s as [|c r IH]; [left; reflexivity|].
  cbn [trim_left]. destruct (ascii_space c) eqn:E; [assumption|].
  right. eauto.
Qed.

Lemma trim_left_fixed (c : ascii) (r : string) :
  ascii_space c = false -> trim_left (String c r) = String c r.
Proof. intros E. cbn [trim_left]. rewrite E. reflexivity. Qed.

Lemma trim_right_idem (s : string) : trim_right (trim_right s) = trim_right s.
Proof.
  induction s as [|c r IH]; [reflexivity|].
  cbn [trim_right]. destruct (trim_right r) as [|c' r'] eqn:E.
  - destruct (ascii_space c) eqn:Ec; [reflexivity|].
    cbn [trim_right]. rewrite Ec. reflexivity.
  - cbn [trim_right] in *. rewrite IH. reflexivity.
Qed.

Lemma trim_right_head (c : ascii) (r : string) :
  ascii_space c = false -> exists r', trim_right (String c r) = String c r'.
Proof.
  intros E. cbn [trim_right]. destruct (trim_right r); [|eauto].
  rewrite E. eauto.
Qed.

Lemma trim_right_space (s : string) : trim_right (s +:+ " ") = trim_right s.
Proof.
  induction s as [|c r IH]; [reflexivity|].
  change (String c r +:+ " ") with (String c (r +:+ " ")).
  cbn [trim_right]. rewrite IH. reflexivity.
Qed.

Lemma ascii_trim_head (s : string) :
  ascii_trim s = "" \/ exists c r, ascii_trim s = String c r /\ ascii_space c = false.
Proof.
  unfold ascii_trim. destruct (trim_left_head s) as [->|(c & r & -> & E)].
  - left. reflexivity.
  - right. destruct (trim_right_head c r E) as [r' ->]. eauto.
Qed.

Lemma ascii_trim_idem (s : string) : ascii_trim (ascii_trim s) = ascii_trim s.
Proof.
  destruct (ascii_trim_head s) as [->|(c & r & E & Ec)]; [reflexivity|].
  unfold ascii_trim at 1. rewrite E, (trim_left_fixed c r Ec), <- E.
  unfold ascii_trim. apply trim_right_idem.
Qed.

Lemma ascii_trim_delimiter (s : string) : ascii_trim (ascii_trim s +:+ " ") = ascii_trim s.
Proof.
  destruct (ascii_trim_head s) as [->|(c & r & E & Ec)]; [reflexivity|].
  unfold ascii_trim at 1. rewrite E.
  change (String c r +:+ " ") with (String c (r +:+ " ")).
  rewrite (trim_left_fixed c _ Ec).
  change (String c (r +:+ " ")) with (String c r +:+ " ").
  rewrite trim_right_space, <- E. unfold ascii_trim. apply trim_right_idem.
Qed.

(** [js_length] counts UTF-16 code units, not bytes: one for a letter
    with an accent, two for a character outside the basic plane. *)
Example js_length_counts_code_units :
  js_length "help" = 4 /\
  js_length "café" = 4 /\ String.length "café" = 5 /\
  js_length "😀" = 2 /\ String.length "😀" = 4.
Proof. repeat split; reflexivity. Qed.

(** ** The remaining functions of lib/ui.js *)

Lemma console_calls_app (t t' : list Call) :
  console_calls (t ++ t') = console_calls t ++ console_calls t'.
Proof.
  induction t as [|[] t IH]; cbn; rewrite ?IH; reflexivity.
Qed.

Lemma shell_calls_app (t t' : list Call) :
  shell_calls (t ++ t') = shell_calls t ++ shell_calls t'.
Proof.
  induction t as [|[] t IH]; cbn; rewrite ?IH; reflexivity.
Qed.

Lemma inquirer_calls_app (t t' : list Call) :
  inquirer_calls (t ++ t') = inquirer_calls t ++ inquirer_calls t'.
Proof.
  induction t as [|[] t IH]; cbn; rewrite ?IH; reflexivity.
Qed.

Section Session.

Variable trim : string -> string.
Variable fixArgsForApply : JSVal -> list JSVal.
Variable inquirer_prompt : Options -> CbId -> UI -> Completion unit * UI.
Variable shell_prompt : Owner -> UI -> Completion unit * UI.

(** X1. With a shell attached, [setDelimiter(str)] stores one and the same
    string, [str] trimmed and followed by a space, as [_lastDelimiter] and
    as the prefix of input and password prompts, and touches nothing else;
    setting the stored delimiter again changes nothing, [trim] being such
    that it removes a space put after trimmed text and nothing more. *)
Theorem setDelimiter_normalises (str : string) (w : World) (o : Owner) :
  (forall s, trim (trim s +:+ " ") = trim s) ->
  parent (ui w) = Some o ->
  exists w',
    setDelimiter trim str w = (Normal tt, w') /\
    _lastDelimiter (ui w') = Some (trim str +:+ " ") /\
    prefix_input (ui w') = Some (trim str +:+ " ") /\
    prefix_password (ui w') = Some (trim str +:+ " ") /\
    parent (ui w') = Some o /\
    _activePrompt (ui w') = _activePrompt (ui w) /\
    _midPrompt (ui w') = _midPrompt (ui w) /\
    _cancelled (ui w') = _cancelled (ui w) /\
    _pipeFn (ui w') = _pipeFn (ui w) /\
    trace w' = trace w /\
    setDelimiter trim (trim str +:+ " ") w' = (Normal tt, w').
Proof.
  intros Htrim Ho. session w. js.
  eexists. split; [reflexivity|]. js.
  repeat split. rewrite Htrim. reflexivity.
Qed.

(** X2. While no shell is attached, [setDelimiter], [pause], [resume],
    [imprint], [redraw] and [_keypressHandler] return at once and change
    nothing; a keypress still emits the raw [client_keypress] event, and
    only that. *)
Theorem detached_session_is_inert
    (w : World) (str : string) (val : option string)
    (e : KeyEvent) (p : option Prompt) (q : Prompt) :
  parent (ui w) = None ->
  setDelimiter trim str w = (Normal tt, w) /\
  pause w = (Normal PFalse, w) /\
  resume shell_prompt val w = (Normal RThis, w) /\
  imprint fixArgsForApply shell_prompt w = (Normal RThis, w) /\
  redraw str w = (Normal RThis, w) /\
  _keypressHandler trim e p w = (Normal [], w) /\
  onKeypress trim e q w = (Normal [EmClientKeypress e], w).
Proof.
  intros Ho. session w. repeat split.
Qed.

(** How [prompt] runs with a shell attached. *)
Lemma prompt_attached (options : option Options) (cb : CbId) (w : World) (o : Owner) :
  parent (ui w) = Some o ->
  prompt trim inquirer_prompt options cb w =
    let opts := default no_options options in
    let u0 := with_delimiter trim (prompt_delimiter opts) (ui w) in
    if _midPrompt (ui w) then
      (Throw (JsError "UI Prompt called when already mid prompt."),
       mkWorld u0 (trace w ++ [CConsoleLog [VStr "Prompt called when mid prompt..."]]))
    else
      match inquirer_prompt opts cb (set_midPrompt true u0) with
      | (Normal _, u2) =>
          (Normal tt, mkWorld u2 (trace w ++ [CInquirerPrompt opts cb]))
      | (Throw e, u2) =>
          (Normal tt,
           mkWorld u2 (trace w ++ [CInquirerPrompt opts cb;
                                   CConsoleLog [VStr "Vantage Prompt error:"; VErr e]]))
      end.
Proof.
  intros Ho. session w.
  assert (Hopts : exists d m, default no_options options = mkOptions d m).
  { destruct options as [[d m]|]; cbn; eauto. }
  destruct Hopts as (d & m & Eo). rewrite Eo.
  unfold prompt. rewrite Eo. clear Eo options.
  unfold prompt_delimiter. cbn [opt_delimiter opt_message].
  destruct m as [m|], d as [d|]; cbn [given];
    repeat match goal with
           | |- context [String.eqb ?x ""] => destruct (String.eqb x "")
           end;
    js_more;
    (destruct mp; js_more;
     [rewrite <- ?app_assoc; reflexivity|]);
    destruct (inquirer_prompt _ _ _) as [[[]|err] u2]; js_more;
    rewrite <- ?app_assoc; reflexivity.
Qed.

(** What [prompt] leaves behind when no line is live. *)
Lemma prompt_idle (options : option Options) (cb : CbId) (w : World) (o : Owner) :
  parent (ui w) = Some o ->
  _midPrompt (ui w) = false ->
  exists w' evs,
    prompt trim inquirer_prompt options cb w = (Normal tt, w') /\
    ui w' =
      snd (inquirer_prompt (default no_options options) cb
             (set_midPrompt true
                (with_delimiter trim (prompt_delimiter (default no_options options))
                   (ui w)))) /\
    trace w' = trace w ++ evs /\
    inquirer_calls evs = [(default no_options options, cb)] /\
    console_calls evs =
      match fst (inquirer_prompt (default no_options options) cb
                   (set_midPrompt true
                      (with_delimiter trim (prompt_delimiter (default no_options options))
                         (ui w)))) with
      | Normal _ => []
      | Throw e => [[VStr "Vantage Prompt error:"; VErr e]]
      end.
Proof.
  intros Ho Hm. rewrite (prompt_attached options cb w o Ho). cbv zeta.
  rewrite Hm.
  destruct (inquirer_prompt _ _ _) as [[[]|err] u2];
    do 2 eexists; (split; [reflexivity|]); cbn; repeat split.
Qed.

(** X3. With a shell attached and no line live, [prompt(options, cb)]
    does not throw.  It sets the delimiter from the message, else from the
    delimiter option, sets [_midPrompt], and calls [inquirer.prompt] once
    with the options and the callback; an exception of the engine is
    caught and logged, and the session is left as the engine left it. *)
Theorem prompt_starts_a_line (options : option Options) (cb : CbId) (w : World) (o : Owner) :
  parent (ui w) = Some o ->
  _midPrompt (ui w) = false ->
  exists w' evs,
    prompt trim inquirer_prompt options cb w = (Normal tt, w') /\
    ui w' =
      snd (inquirer_prompt (default no_options options) cb
             (set_midPrompt true
                (with_delimiter trim (prompt_delimiter (default no_options options))
                   (ui w)))) /\
    trace w' = trace w ++ evs /\
    inquirer_calls evs = [(default no_options options, cb)] /\
    console_calls evs =
      match fst (inquirer_prompt (default no_options options) cb
                   (set_midPrompt true
                      (with_delimiter trim (prompt_delimiter (default no_options options))
                         (ui w)))) with
      | Normal _ => []
      | Throw e => [[VStr "Vantage Prompt error:"; VErr e]]
      end.
Proof. exact (prompt_idle options cb w o). Qed.

(** X4. The fail-safe against a double prompt.  If the engine leaves
    [parent] and [_midPrompt] alone, then after one [prompt] a second
    [prompt] throws and the engine has been called once only; once the
    answer of the first has come in ([prompt_callback]), [prompt] runs
    again. *)
Theorem second_prompt_is_refused
    (o1 o2 : option Options) (cb1 cb2 : CbId) (result : JSVal)
    (w : World) (o : Owner) :
  (forall opts cb u,
     parent (snd (inquirer_prompt opts cb u)) = parent u /\
     _midPrompt (snd (inquirer_prompt opts cb u)) = _midPrompt u) ->
  parent (ui w) = Some o ->
  _midPrompt (ui w) = false ->
  exists w1 w2 w3 w4,
    prompt trim inquirer_prompt o1 cb1 w = (Normal tt, w1) /\
    prompt trim inquirer_prompt o2 cb2 w1 =
      (Throw (JsError "UI Prompt called when already mid prompt."), w2) /\
    inquirer_calls (trace w2) =
      inquirer_calls (trace w) ++ [(default no_options o1, cb1)] /\
    prompt_callback cb1 result w1 = (Normal tt, w3) /\
    prompt trim inquirer_prompt o2 cb2 w3 = (Normal tt, w4) /\
    inquirer_calls (trace w4) =
      inquirer_calls (trace w) ++
      [(default no_options o1, cb1); (default no_options o2, cb2)].
Proof.
  intros Hinq Ho Hm.
  destruct (prompt_idle o1 cb1 w o Ho Hm)
    as (w1 & evs & H1 & Hu1 & Ht1 & Hi1 & _).
  destruct (Hinq (default no_options o1) cb1
              (set_midPrompt true
                 (with_delimiter trim (prompt_delimiter (default no_options o1)) (ui w))))
    as [Hp1 Hm1].
  rewrite <- Hu1 in Hp1, Hm1.
  assert (Hp1' : parent (ui w1) = Some o).
  { rewrite Hp1. destruct (prompt_delimiter _); session w; reflexivity. }
  assert (Hm1' : _midPrompt (ui w1) = true).
  { rewrite Hm1. destruct (prompt_delimiter _); session w; reflexivity. }
  pose (w3 := mkWorld (set_midPrompt false (ui w1))
                      (trace w1 ++ [CCallback cb1 result])).
  assert (Hp3 : parent (ui w3) = Some o) by exact Hp1'.
  assert (Hm3 : _midPrompt (ui w3) = false) by reflexivity.
  destruct (prompt_idle o2 cb2 w3 o Hp3 Hm3)
    as (w4 & evs4 & H4 & _ & Ht4 & Hi4 & _).
  exists w1.
  exists (mkWorld
            (with_delimiter trim (prompt_delimiter (default no_options o2)) (ui w1))
            (trace w1 ++ [CConsoleLog [VStr "Prompt called when mid prompt..."]])).
  exists w3, w4.
  split; [exact H1|].
  split.
  { rewrite (prompt_attached o2 cb2 w1 o Hp1'). cbv zeta. rewrite Hm1'.
    reflexivity. }
  split.
  { cbn [trace]. rewrite Ht1, !inquirer_calls_app, Hi1. cbn.
    rewrite app_nil_r. reflexivity. }
  split; [reflexivity|].
  split; [exact H4|].
  rewrite Ht4. unfold w3. cbn [trace].
  rewrite Ht1, !inquirer_calls_app, Hi1, Hi4. cbn.
  rewrite app_nil_r, <- app_assoc. reflexivity.
Qed.

(** X5. [pause] is spent once it has succeeded: the session is no longer
    mid-prompt, so a second [pause] and a [refresh] return [false] and
    change nothing. *)
Theorem pause_is_one_shot (w : World) (o : Owner) (p : Prompt) :
  parent (ui w) = Some o ->
  _activePrompt (ui w) = Some p ->
  _midPrompt (ui w) = true ->
  exists w',
    pause w = (Normal (PLine (rl_line p)), w') /\
    midPrompt w' = (Normal false, w') /\
    pause w' = (Normal PFalse, w') /\
    refresh shell_prompt w' = (Normal RFalse, w').
Proof.
  intros Ho Hp Hm. session w. js_more.
  eexists. split; [reflexivity|]. repeat split.
Qed.

(** X6. [resume(val)] does nothing when no shell is attached, when there
    is no active prompt or when a line is live.  Otherwise it first calls
    the shell's [_prompt]; if that throws, so does [resume]; if it leaves
    no active prompt, [resume] throws a TypeError; else the active prompt
    gets [val] (the empty string when [val] is missing) as its line, the
    cursor at its end, and is redrawn. *)
Theorem resume_restores_or_refuses (val : option string) (w : World) :
  ((parent (ui w) = None \/ _activePrompt (ui w) = None \/
    _midPrompt (ui w) = true) ->
   resume shell_prompt val w = (Normal RThis, w)) /\
  (forall o p,
     parent (ui w) = Some o ->
     _activePrompt (ui w) = Some p ->
     _midPrompt (ui w) = false ->
     resume shell_prompt val w =
       match shell_prompt o (ui w) with
       | (Throw e, u2) => (Throw e, mkWorld u2 (trace w ++ [CShellPrompt o]))
       | (Normal _, u2) =>
           match _activePrompt u2 with
           | None =>
               (Throw (JsTypeError "Cannot read property of undefined"),
                mkWorld u2 (trace w ++ [CShellPrompt o]))
           | Some q =>
               (Normal RThis,
                mkWorld
                  (set_activePrompt
                     (Some (set_cursor (js_length (default "" val))
                              (set_line (default "" val) q))) u2)
                  (trace w ++
                   [CShellPrompt o; CCacheCursorPos (pid q); CClean (pid q);
                    CRender (pid q); CWrite (pid q) (default "" val);
                    CRestoreCursorPos (pid q)]))
           end
       end).
Proof.
  split.
  - intros H. session w. unfold resume. cbn.
    destruct pa; [|reflexivity].
    destruct ap; [|reflexivity].
    destruct mp; [reflexivity|].
    destruct H as [H|[H|H]]; discriminate.
  - intros o p Ho Hp Hm. session w.
    destruct val as [v|]; js_more;
      (destruct (shell_prompt o _) as [[[]|e] u2]; js_more; [|reflexivity]);
      destruct u2 as [? [q|] ? ? ? ? ? ?]; js_more;
      rewrite <- ?app_assoc; reflexivity.
Qed.

(** X7. [imprint()] and [redraw(str)] need a prompt object: with a shell
    attached but no active prompt each throws a TypeError, having printed
    and changed nothing. *)
Theorem imprint_and_redraw_need_a_prompt (str : string) (w : World) (o : Owner) :
  parent (ui w) = Some o ->
  _activePrompt (ui w) = None ->
  imprint fixArgsForApply shell_prompt w =
    (Throw (JsTypeError "Cannot read property of undefined"), w) /\
  redraw str w =
    (Throw (JsTypeError "Cannot read property of undefined"), w).
Proof.
  intros Ho Hp. session w. split; reflexivity.
Qed.

(** X8. [imprint()] prints the last delimiter (nothing when none was set)
    followed by the typed line, through [log].  When no line is live that
    is all it does; when the line is live and the shell's [_prompt] returns
    with an active prompt, the typed line is back in that prompt afterwards,
    the cursor at its end. *)
Theorem imprint_echoes_the_line (out : list JSVal) (w : World) (o : Owner) (p : Prompt) :
  parent (ui w) = Some o ->
  _activePrompt (ui w) = Some p ->
  piped fixArgsForApply (ui w)
        [VStr (default "" (_lastDelimiter (ui w)) +:+ rl_line p)] = Some out ->
  (_midPrompt (ui w) = false ->
   imprint fixArgsForApply shell_prompt w =
     (Normal RThis, mkWorld (ui w) (trace w ++ [CConsoleLog out]))) /\
  (forall u2 q,
     _midPrompt (ui w) = true ->
     shell_prompt o
       (set_activePrompt (Some (set_status "answered" p))
          (set_cancelled true (set_midPrompt false (ui w)))) = (Normal tt, u2) ->
     _activePrompt u2 = Some q ->
     exists w',
       imprint fixArgsForApply shell_prompt w = (Normal RThis, w') /\
       console_calls (trace w') = console_calls (trace w) ++ [out] /\
       _activePrompt (ui w') =
         Some (set_cursor (js_length (rl_line p)) (set_line (rl_line p) q))).
Proof.
  intros Ho Hp Hout. split.
  - intros Hm. session w. revert Hout. js_more. intros ->. js_more.
    rewrite <- ?app_assoc. reflexivity.
  - intros u2 q Hm Hs Hq. session w. destruct u2 as [? ? ? ? ? ? ? ?].
    cbn in Hq. subst.
    revert Hout Hs. js_more. intros -> Hs. js_more. rewrite Hs. js_more.
    eexists. split; [reflexivity|]. cbn [trace ui _activePrompt].
    rewrite !console_calls_app. cbn. rewrite !app_nil_r. split; reflexivity.
Qed.

(** X9. With a shell attached and an active prompt, [redraw(str)] puts
    [str] on the line and the cursor at its end, redraws, and leaves
    everything else, [_midPrompt] included, as it was; a [pause] of the
    live line then returns [str]; and of two [redraw]s the second decides
    the session. *)
Theorem redraw_replaces_the_line (str str' : string) (w : World) (o : Owner) (p : Prompt) :
  parent (ui w) = Some o ->
  _activePrompt (ui w) = Some p ->
  exists w',
    redraw str w = (Normal RThis, w') /\
    ui w' =
      set_activePrompt
        (Some (set_cursor (js_length str) (set_line str p))) (ui w) /\
    trace w' = trace w ++
      [CCacheCursorPos (pid p); CClean (pid p); CRender (pid p);
       CWrite (pid p) str; CRestoreCursorPos (pid p)] /\
    (_midPrompt (ui w) = true ->
     exists w'', pause w' = (Normal (PLine str), w'')) /\
    (exists w1 w2,
       redraw str' w = (Normal RThis, w1) /\
       redraw str w1 = (Normal RThis, w2) /\
       ui w2 = ui w').
Proof.
  intros Ho Hp. session w. js_more.
  eexists. split; [reflexivity|]. js_more.
  split; [reflexivity|]. split; [rewrite <- ?app_assoc; reflexivity|].
  split.
  - intros ->. eexists. reflexivity.
  - do 2 eexists. split; [reflexivity|]. split; reflexivity.
Qed.

(** X10. A keypress in a prompt while a shell is attached makes that
    prompt the active one and emits, after the raw [client_keypress],
    a [vantage_ui_keypress] with the key's name and the line as [trim]
    returns it; nothing else changes, and a [pause] of the live line
    still returns the line as typed. *)
Theorem keypress_reports_trimmed_line (e : KeyEvent) (p : Prompt) (w : World) (o : Owner) :
  parent (ui w) = Some o ->
  exists value,
    onKeypress trim e p w =
      (Normal [EmClientKeypress e;
               EmUiKeypress (match ev_key e with
                             | Some k => key_name k
                             | None => None
                             end) (Some value)],
       mkWorld (set_activePrompt (Some p) (ui w)) (trace w)) /\
    value = trim (rl_line p) /\
    (_midPrompt (ui w) = true ->
     exists w',
       pause (mkWorld (set_activePrompt (Some p) (ui w)) (trace w)) =
         (Normal (PLine (rl_line p)), w')).
Proof.
  intros Ho. session w. eexists. split; [reflexivity|].
  split; [reflexivity|].
  cbn. intros ->. eexists. reflexivity.
Qed.

(** X11. A keypress handled without a prompt, with a shell attached,
    clears [_activePrompt] and reports no value. *)
Theorem keypress_without_prompt_forgets (e : KeyEvent) (w : World) (o : Owner) :
  parent (ui w) = Some o ->
  _keypressHandler trim e None w =
    (Normal [EmUiKeypress (match ev_key e with
                           | Some k => key_name k
                           | None => None
                           end) None],
     mkWorld (set_activePrompt None (ui w)) (trace w)) /\
  pause (mkWorld (set_activePrompt None (ui w)) (trace w)) =
    (Normal PFalse, mkWorld (set_activePrompt None (ui w)) (trace w)).
Proof.
  intros Ho. session w. split; reflexivity.
Qed.

(** What [attach] does when the shell's [_prompt] leaves [parent] alone. *)
Lemma attach_run (vantage : Owner) (w : World) :
  (forall o u, parent (snd (shell_prompt o u)) = parent u) ->
  exists c w' evs,
    attach shell_prompt vantage w = (c, w') /\
    trace w' = trace w ++ evs /\
    parent (ui w') = Some vantage /\
    Forall (eq vantage) (shell_calls evs) /\
    1 <= length (shell_calls evs) <= 2 /\
    ((_midPrompt (ui w) = false \/ _activePrompt (ui w) = None) ->
     evs = [CShellPrompt vantage]).
Proof.
  intros Hpres.
  assert (Hp : forall o u c u2, shell_prompt o u = (c, u2) -> parent u2 = parent u).
  { intros o u c u2 E. specialize (Hpres o u). rewrite E in Hpres. exact Hpres. }
  session w.
  assert (Hlive : (exists p, ap = Some p /\ mp = true) \/ (mp = false \/ ap = None)).
  { destruct ap, mp; eauto. }
  destruct Hlive as [(p & -> & ->)|Hidle].
  - destruct p as [i l c st]. js_more.
    destruct (String.eqb st "answered"); js_more;
      (destruct (shell_prompt vantage _) as [[[]|e] u2] eqn:E1;
       apply Hp in E1; destruct u2 as [? ? ? ? ? ? ? ?]; cbn in E1; subst; js_more;
       [destruct (shell_prompt vantage _) as [[[]|e'] u3] eqn:E2;
        apply Hp in E2; cbn in E2|]);
      do 3 eexists; (split; [reflexivity|]);
      (split; [cbn [trace]; rewrite <- ?app_assoc; reflexivity|]);
      cbn; repeat split; auto; try lia; try (intros [?|?]; discriminate).
  - assert (Hcases : mp = false \/ (mp = true /\ ap = None)).
    { destruct mp; [right|left]; [|reflexivity].
      destruct Hidle as [?| ->]; [discriminate|auto]. }
    destruct Hcases as [->|[-> ->]]; [destruct ap|]; js_more;
      (destruct (shell_prompt vantage _) as [[[]|e] u2] eqn:E1;
       apply Hp in E1; cbn in E1;
       do 3 eexists; (split; [reflexivity|]);
       (split; [reflexivity|]); cbn; repeat split; auto).
Qed.

(** X12. [attach(vantage)] makes [vantage] the owner and calls its
    [_prompt], and no other shell's: once when no line is live, and, when a
    line is live, once after cleaning and answering it and, if that call
    returns, once more.  The shell's [_prompt] is taken to leave [parent]
    alone. *)
Theorem attach_prompts_the_new_owner (vantage : Owner) (w : World) :
  (forall o u, parent (snd (shell_prompt o u)) = parent u) ->
  exists c w' evs,
    attach shell_prompt vantage w = (c, w') /\
    trace w' = trace w ++ evs /\
    parent (ui w') = Some vantage /\
    Forall (eq vantage) (shell_calls evs) /\
    1 <= length (shell_calls evs) <= 2 /\
    ((_midPrompt (ui w) = false \/ _activePrompt (ui w) = None) ->
     evs = [CShellPrompt vantage]).
Proof. exact (attach_run vantage w). Qed.

(** X13. Ownership moves with [attach]: afterwards [detach] by any other
    shell, or by none, changes nothing, and [detach] by the new owner
    leaves the session without owner. *)
Theorem attach_takes_the_session_over (vantage other : Owner) (w : World) :
  (forall o u, parent (snd (shell_prompt o u)) = parent u) ->
  other <> vantage ->
  exists c w' w'',
    attach shell_prompt vantage w = (c, w') /\
    detach (Some other) w' = (Normal RThis, w') /\
    detach None w' = (Normal RThis, w') /\
    detach (Some vantage) w' = (Normal RThis, w'') /\
    parent (ui w'') = None.
Proof.
  intros Hpres Hne.
  destruct (attach_run vantage w Hpres) as (c & w' & evs & Ha & _ & Hp & _).
  exists c, w', (mkWorld (set_parent None (ui w')) (trace w')).
  split; [exact Ha|]. clear Ha.
  session w'. unfold detach. cbn.
  rewrite (bool_decide_eq_false_2 (Some other = Some vantage)) by congruence.
  rewrite (bool_decide_eq_true_2 (Some vantage = Some vantage)) by reflexivity.
  cbn. repeat split.
Qed.

(** X14. Without a pipe function no [log] call is dropped, the empty
    string included: the first thing [log] prints is its arguments, and
    when no line is live that is all it does.  [fixArgsForApply] is taken
    to hand back the elements of an array and of an [arguments] object. *)
Theorem log_without_pipe_prints_arguments (arguments : list JSVal) (w : World) :
  (forall l, fixArgsForApply (VArgs l) = l) ->
  (forall l, fixArgsForApply (VArr l) = l) ->
  _pipeFn (ui w) = None ->
  (exists c w' evs rest,
     log fixArgsForApply shell_prompt arguments w = (c, w') /\
     trace w' = trace w ++ evs /\
     console_calls evs = arguments :: rest) /\
  ((_midPrompt (ui w) = false \/ parent (ui w) = None) ->
   log fixArgsForApply shell_prompt arguments w =
     (Normal RThis, mkWorld (ui w) (trace w ++ [CConsoleLog arguments]))).
Proof.
  intros Hargs Harr Hpipe.
  assert (Hp : piped fixArgsForApply (ui w) arguments = Some arguments).
  { unfold piped. rewrite Hpipe, Hargs, Harr. reflexivity. }
  split.
  - unfold log at 1. unfold bind at 1. unfold this_ui at 1.
    rewrite Hp. clear Hp Hpipe. session w.
    js_more. destruct mp; js_more;
      [|do 4 eexists; split; [reflexivity|split; reflexivity]].
    destruct pa as [o|]; js_more;
      [|do 4 eexists; split; [reflexivity|split; reflexivity]].
    destruct ap as [p|]; js_more.
    + destruct (shell_prompt o _) as [[[]|e] u2]; js_more.
      * destruct u2 as [? [q|] ? ? ? ? ? ?]; js_more;
          do 4 eexists; (split; [reflexivity|]); cbn;
          rewrite <- ?app_assoc; (split; reflexivity).
      * do 4 eexists. split; [reflexivity|]. cbn.
        rewrite <- ?app_assoc. split; reflexivity.
    + do 4 eexists. split; [reflexivity|]. cbn.
      rewrite <- ?app_assoc. split; reflexivity.
  - intros H. unfold log at 1. unfold bind at 1. unfold this_ui at 1.
    rewrite Hp. clear Hp Hpipe. session w.
    js_more. destruct H as [->| ->]; [reflexivity|].
    destruct mp; reflexivity.
Qed.

End Session.

(** * Loading the module twice *)

Section Loading.

Import Singleton.

Lemma load_again (obj obj' : nat) (g : Global) :
  load obj' (global_after (load obj g)) =
  mkLoaded (global_after (load obj g)) (module_exports (load obj g)) false.
Proof.
  unfold load. destruct g as [[[[[] e]|]]|]; reflexivity.
Qed.

Lemma loads_settled (l : Loaded) (rest : list nat) :
  (forall obj, load obj (global_after l) =
               mkLoaded (global_after l) (module_exports l) false) ->
  Forall (fun l' => module_exports l' = module_exports l /\
                    ran_init l' = false /\
                    global_after l' = global_after l)
         (loads rest (global_after l)).
Proof.
  intros H. induction rest as [|obj rest IH]; cbn; [constructor|].
  rewrite H. cbn. constructor; [auto|exact IH].
Qed.

(** X15. However often lib/ui.js is evaluated, every evaluation after the
    first exports what the first exported, runs [_init] no more, and
    leaves the global as the first left it; in a process where
    [global.__vantage] is not yet set the first evaluation runs [_init]
    and exports its own [ui] object. *)
Theorem ui_is_published_once (first : nat) (rest : list nat) (g : Global) :
  Forall (fun l => module_exports l = module_exports (load first g) /\
                   ran_init l = false /\
                   global_after l = global_after (load first g))
         (loads rest (global_after (load first g))) /\
  (ran_init (load first g) = true ->
   module_exports (load first g) = Some first) /\
  load first None =
    mkLoaded (Some (mkNamespace (Some (mkSlot true (Some first)))))
             (Some first) true.
Proof.
  split; [|split].
  - apply loads_settled. intros obj. apply load_again.
  - unfold load. destruct g as [[[[[] e]|]]|]; cbn; congruence.
  - reflexivity.
Qed.

End Loading.

(** * The output capture of the tests *)

Lemma append_assoc (a b c : string) : (a +:+ b) +:+ c = a +:+ (b +:+ c).
Proof.
  induction a as [|x a IH]; [reflexivity|].
  change (String x ((a +:+ b) +:+ c) = String x (a +:+ (b +:+ c))).
  rewrite IH. reflexivity.
Qed.

Lemma append_empty_r (a : string) : a +:+ "" = a.
Proof.
  induction a as [|x a IH]; [reflexivity|].
  change (String x (a +:+ "") = String x a).
  rewrite IH. reflexivity.
Qed.

Section Capturing.

Import Capture.

Variable ToString : JSVal -> string.

Lemma run_onStdout (vs : list JSVal) : forall b,
  run ToString (OnStdout <$> vs) b =
  mkBuffers (_all b +:+ written ToString (OnStdout <$> vs))
            (_stdout b +:+ written ToString (OnStdout <$> vs))
            (_excess b).
Proof.
  induction vs as [|v vs IH]; intros [a s x]; cbn.
  - rewrite !append_empty_r. reflexivity.
  - unfold run in IH. rewrite IH. cbn. rewrite !append_assoc. reflexivity.
Qed.

(** X16. [stdout()] hands back, in order and as one string, everything
    [onStdout] was given since the buffer was last read, and empties the
    buffer, so that reading again gives the empty string; [onStdout]
    itself always returns the empty string, the value with which a pipe
    function silences [log]. *)
Theorem stdout_returns_what_was_captured (b : Buffers) (vs : list JSVal) :
  snd (stdout (run ToString (OnStdout <$> vs) (fst (stdout b)))) =
    written ToString (OnStdout <$> vs) /\
  snd (stdout (fst (stdout (run ToString (OnStdout <$> vs) (fst (stdout b)))))) = "" /\
  (forall v b', snd (onStdout ToString v b') = VStr "").
Proof.
  rewrite run_onStdout. destruct b as [a s x]. cbn. repeat split.
Qed.

Lemma run_keeps_all (ops : list Op) : forall b,
  (exists p, _all b = p +:+ _stdout b) ->
  _all (run ToString ops b) = _all b +:+ written ToString ops /\
  exists p, _all (run ToString ops b) = p +:+ _stdout (run ToString ops b).
Proof.
  induction ops as [|o ops IH]; intros [a s x] [p Hp]; cbn in *.
  - rewrite append_empty_r. eauto.
  - destruct o as [v| |]; cbn.
    + destruct (IH (mkBuffers (a +:+ ToString v) (s +:+ ToString v) x)) as [H1 H2].
      { exists p. cbn. rewrite Hp, append_assoc. reflexivity. }
      cbn in H1. unfold run in *. split; [|exact H2].
      rewrite H1, append_assoc. reflexivity.
    + apply (IH (mkBuffers a "" x)). exists a. cbn. rewrite append_empty_r.
      reflexivity.
    + apply (IH (mkBuffers a "" (x +:+ s))). exists a. cbn.
      rewrite append_empty_r. reflexivity.
Qed.

(** X17. Whatever the tests do with the buffers, starting from empty
    ones: [_all] is everything [onStdout] was ever given, in order, and
    [_stdout] is its tail, what has come in since the last [stdout()] or
    [afterEach]. *)
Theorem capture_keeps_everything (ops : list Op) :
  _all (run ToString ops initial) = written ToString ops /\
  exists p, _all (run ToString ops initial) =
            p +:+ _stdout (run ToString ops initial).
Proof.
  destruct (run_keeps_all ops initial) as [H1 H2]; [exists ""; reflexivity|].
  split; [exact H1|exact H2].
Qed.

End Capturing.

(** * The further properties on the sample sessions *)

Lemma input_prompt_keeps_owner_and_flag (opts : Options) (cb : CbId) (u : UI) :
  parent (snd (input_prompt opts cb u)) = parent u /\
  _midPrompt (snd (input_prompt opts cb u)) = _midPrompt u.
Proof. destruct u. split; reflexivity. Qed.

Lemma local_shell_keeps_owner (o : Owner) (u : UI) :
  parent (snd (local_shell o u)) = parent u.
Proof. destruct u as [[?|] ? [] ? ? ? ? ?]; reflexivity. Qed.

Lemma setDelimiter_witness :
  exists w',
    setDelimiter ascii_trim "  app>  " typing = (Normal tt, w') /\
    _lastDelimiter (ui w') = Some "app> " /\
    setDelimiter ascii_trim "app> " w' = (Normal tt, w').
Proof.
  destruct (setDelimiter_normalises ascii_trim "  app>  " typing 1
              ascii_trim_delimiter eq_refl)
    as (w' & H1 & H2 & _ & _ & _ & _ & _ & _ & _ & _ & H3).
  exists w'. split; [exact H1|]. split; [exact H2|exact H3].
Defined.

Lemma detached_witness :
  pause orphaned = (Normal PFalse, orphaned) /\
  redraw "exit" orphaned = (Normal RThis, orphaned) /\
  onKeypress ascii_trim (mkKeyEvent (Some (mkKey (Some "tab")))) (mkPrompt 0 "he" 2 "pending")
             orphaned =
    (Normal [EmClientKeypress (mkKeyEvent (Some (mkKey (Some "tab"))))], orphaned).
Proof.
  destruct (detached_session_is_inert ascii_trim array_of local_shell orphaned "exit" None
              (mkKeyEvent (Some (mkKey (Some "tab")))) None
              (mkPrompt 0 "he" 2 "pending") eq_refl)
    as (_ & H2 & _ & _ & H5 & _ & H7).
  split; [exact H2|]. split; [exact H5|exact H7].
Defined.

Lemma prompt_starts_witness :
  exists w',
    prompt ascii_trim input_prompt (Some (mkOptions (Some "a>") (Some "b>"))) 7 resting =
      (Normal tt, w') /\
    ui w' = mkUI (Some 1) (Some (mkPrompt 1 "" 0 "pending")) true false None
                 (Some "b> ") (Some "b> ") (Some "b> ").
Proof.
  destruct (prompt_starts_a_line ascii_trim input_prompt
              (Some (mkOptions (Some "a>") (Some "b>"))) 7 resting 1
              eq_refl eq_refl)
    as (w' & evs & H1 & H2 & _).
  exists w'. split; [exact H1|exact H2].
Defined.

Lemma second_prompt_witness :
  exists w1 w2,
    prompt ascii_trim input_prompt None 7 resting = (Normal tt, w1) /\
    prompt ascii_trim input_prompt None 8 w1 =
      (Throw (JsError "UI Prompt called when already mid prompt."), w2).
Proof.
  destruct (second_prompt_is_refused ascii_trim input_prompt None None 7 8 (VStr "help")
              resting 1 input_prompt_keeps_owner_and_flag eq_refl eq_refl)
    as (w1 & w2 & _ & _ & H1 & H2 & _).
  exists w1, w2. split; [exact H1|exact H2].
Defined.

Lemma pause_twice_witness :
  exists w',
    pause typing = (Normal (PLine "help"), w') /\
    pause w' = (Normal PFalse, w').
Proof.
  destruct (pause_is_one_shot local_shell typing 1 (mkPrompt 0 "help" 1 "pending")
              eq_refl eq_refl eq_refl)
    as (w' & H1 & _ & H3 & _).
  exists w'. split; [exact H1|exact H3].
Defined.

Lemma resume_witness :
  resume local_shell (Some "he") typing = (Normal RThis, typing) /\
  resume local_shell None resting =
    (Normal RThis,
     mkWorld (mkUI (Some 1) (Some (mkPrompt 1 "" 0 "pending")) true false None
                   (Some "vantage~$ ") (Some "vantage~$ ") (Some "vantage~$ "))
             [CShellPrompt 1; CCacheCursorPos 1; CClean 1; CRender 1;
              CWrite 1 ""; CRestoreCursorPos 1]).
Proof.
  split.
  - apply (proj1 (resume_restores_or_refuses local_shell (Some "he") typing)).
    right. right. reflexivity.
  - exact (proj2 (resume_restores_or_refuses local_shell None resting)
             1 (mkPrompt 0 "help" 1 "answered") eq_refl eq_refl eq_refl).
Defined.

Lemma no_prompt_witness :
  imprint array_of local_shell promptless =
    (Throw (JsTypeError "Cannot read property of undefined"), promptless) /\
  redraw "exit" promptless =
    (Throw (JsTypeError "Cannot read property of undefined"), promptless).
Proof.
  exact (imprint_and_redraw_need_a_prompt array_of local_shell "exit"
           promptless 1 eq_refl eq_refl).
Defined.

Lemma imprint_witness :
  imprint array_of local_shell resting =
    (Normal RThis, mkWorld (ui resting) [CConsoleLog [VStr "app$ help"]]) /\
  exists w',
    imprint array_of local_shell typing = (Normal RThis, w') /\
    console_calls (trace w') = [[VStr "app$ help"]] /\
    _activePrompt (ui w') = Some (mkPrompt 1 "help" 4 "pending").
Proof.
  split.
  - apply (proj1 (imprint_echoes_the_line array_of local_shell
                    [VStr "app$ help"] resting 1
                    (mkPrompt 0 "help" 1 "answered") eq_refl eq_refl eq_refl)).
    reflexivity.
  - exact (proj2 (imprint_echoes_the_line array_of local_shell
                    [VStr "app$ help"] typing 1
                    (mkPrompt 0 "help" 1 "pending") eq_refl eq_refl eq_refl)
             (mkUI (Some 1) (Some (mkPrompt 1 "" 0 "pending")) true true None
                   (Some "vantage~$ ") (Some "vantage~$ ") (Some "vantage~$ "))
             (mkPrompt 1 "" 0 "pending") eq_refl eq_refl eq_refl).
Defined.

Lemma redraw_witness :
  exists w' w'',
    redraw "exit" typing = (Normal RThis, w') /\
    _activePrompt (ui w') = Some (mkPrompt 0 "exit" 4 "pending") /\
    pause w' = (Normal (PLine "exit"), w'').
Proof.
  destruct (redraw_replaces_the_line "exit" "quit" typing 1
              (mkPrompt 0 "help" 1 "pending") eq_refl eq_refl)
    as (w' & H1 & H2 & _ & H4 & _).
  destruct (H4 eq_refl) as (w'' & H5).
  exists w', w''. split; [exact H1|]. split; [rewrite H2; reflexivity|exact H5].
Defined.

Lemma keypress_witness :
  exists value,
    onKeypress ascii_trim (mkKeyEvent (Some (mkKey (Some "space"))))
               (mkPrompt 0 " help " 6 "pending") typing =
      (Normal [EmClientKeypress (mkKeyEvent (Some (mkKey (Some "space"))));
               EmUiKeypress (Some "space") (Some value)],
       mkWorld (set_activePrompt (Some (mkPrompt 0 " help " 6 "pending")) (ui typing))
               []) /\
    value = "help".
Proof.
  destruct (keypress_reports_trimmed_line ascii_trim
              (mkKeyEvent (Some (mkKey (Some "space"))))
              (mkPrompt 0 " help " 6 "pending") typing 1 eq_refl)
    as (value & H1 & H2 & _).
  exists value. split; [exact H1|exact H2].
Defined.

Lemma keypress_without_prompt_witness :
  _keypressHandler ascii_trim (mkKeyEvent None) None typing =
    (Normal [EmUiKeypress None None],
     mkWorld (set_activePrompt None (ui typing)) []).
Proof.
  exact (proj1 (keypress_without_prompt_forgets ascii_trim (mkKeyEvent None) typing 1 eq_refl)).
Defined.

Lemma attach_witness :
  exists c w' evs,
    attach local_shell 2 typing = (c, w') /\
    trace w' = trace typing ++ evs /\
    parent (ui w') = Some 2 /\
    Forall (eq 2) (shell_calls evs).
Proof.
  destruct (attach_prompts_the_new_owner local_shell 2 typing
              local_shell_keeps_owner)
    as (c & w' & evs & H1 & H2 & H3 & H4 & _).
  exists c, w', evs. repeat split; assumption.
Defined.

Lemma attach_over_witness :
  exists c w' w'',
    attach local_shell 2 typing = (c, w') /\
    detach (Some 1) w' = (Normal RThis, w') /\
    detach (Some 2) w' = (Normal RThis, w'') /\
    parent (ui w'') = None.
Proof.
  destruct (attach_takes_the_session_over local_shell 2 1 typing
              local_shell_keeps_owner ltac:(discriminate))
    as (c & w' & w'' & H1 & H2 & _ & H4 & H5).
  exists c, w', w''. repeat split; assumption.
Defined.

Lemma log_without_pipe_witness :
  log array_of local_shell [VStr ""] resting =
    (Normal RThis, mkWorld (ui resting) [CConsoleLog [VStr ""]]).
Proof.
  apply (proj2 (log_without_pipe_prints_arguments array_of local_shell
                  [VStr ""] resting (fun l => eq_refl) (fun l => eq_refl) eq_refl)).
  left. reflexivity.
Defined.

Lemma published_once_witness :
  Singleton.module_exports (Singleton.load 1 None) = Some 1.
Proof.
  apply (proj1 (proj2 (ui_is_published_once 1 [2; 3] None))).
  reflexivity.
Defined.
